(** * Blackjack environment and its two tabular learning agents

    A shallow embedding of [blackjack.py], [qlearning.py] and
    [montecarlo.py].  Python objects mutated in place become explicit
    state passing; Python exceptions become the [Raise] branch of a small
    error monad; calls to [random] become explicit arguments. *)

From Stdlib Require Import ZArith Lia Permutation Ascii String.
From stdpp Require Import base decidable option list strings gmap.

Open Scope Z_scope.

(** ** Exceptions *)

Inductive exn : Type :=
| IndexError          (* list.pop on an empty list, array index out of bounds *)
| ValueError          (* int() on a string that is not a numeral *)
| ZeroDivisionError.  (* x % 0 *)

Inductive result (A : Type) : Type :=
| Ok (a : A)
| Raise (e : exn).
Arguments Ok {A} a.
Arguments Raise {A} e.

#[global] Instance result_ret : MRet result := fun A a => Ok a.
#[global] Instance result_bind : MBind result := fun A B k m =>
  match m with
  | Ok a => k a
  | Raise e => Raise e
  end.

(** ** Cards and the deck ([blackjack.py]) *)

Module Blackjack.

(** A card is the dictionary [{'number': ..., 'suit': ...}]. *)
Record Card : Type := mkCard { number : string; suit : string }.

#[global] Instance Card_eq_dec : EqDecision Card.
Proof. solve_decision. Defined.

Definition numbers : list string :=
  ["2"; "3"; "4"; "5"; "6"; "7"; "8"; "9"; "10"; "J"; "Q"; "K"; "A"]%string.

Definition suits : list string :=
  ["hearts"; "diamonds"; "clubs"; "spades"]%string.

(** [[{'number': number, 'suit': suit} for number in numbers for suit in suits]] *)
Definition generate_deck : list Card :=
  flat_map (fun n => map (fun s => mkCard n s) suits) numbers.

(** [list.pop()]: removes and returns the last element; [IndexError] on
    the empty list.  The result is (remaining list, popped element). *)
Fixpoint pop {A} (l : list A) : result (list A * A) :=
  match l with
  | [] => Raise IndexError
  | x :: l' =>
      match l' with
      | [] => Ok ([], x)
      | _ :: _ => '(r, y) ← pop l'; Ok (x :: r, y)
      end
  end.

(** A card whose rank is one of the thirteen of [generate_deck]. *)
Definition valid_card (c : Card) : Prop := number c ∈ numbers.

#[global] Instance valid_card_dec c : Decision (valid_card c).
Proof. unfold valid_card. apply _. Defined.

(** The mutable fields of a [BlackjackGame] instance. *)
Record Game : Type := mkGame {
  deck : list Card;
  player_hand : list Card;
  dealer_hand : list Card
}.

(** [__init__]: the deck is [generate_deck()] after [random.shuffle]; the
    shuffled deck is passed in. *)
Definition new_game (shuffled : list Card) : Game :=
  mkGame shuffled [] [].

(** [deal_card]: [return self.deck.pop()]. *)
Definition deal_card (g : Game) : result (Card * Game) :=
  '(rest, c) ← pop (deck g);
  Ok (c, mkGame rest (player_hand g) (dealer_hand g)).

(** [k] successive calls of [deal_card]: the cards dealt, first one
    first, and the game after them. *)
Fixpoint deal_n (k : nat) (g : Game) : result (list Card * Game) :=
  match k with
  | O => Ok ([], g)
  | S k' =>
      '(c, g1) ← deal_card g;
      '(cs, g2) ← deal_n k' g1;
      Ok (c :: cs, g2)
  end.

(** [start_game]: two cards to the player, then two to the dealer. *)
Definition start_game (g : Game) : result Game :=
  '(c1, g1) ← deal_card g;
  '(c2, g2) ← deal_card g1;
  let g3 := mkGame (deck g2) [c1; c2] (dealer_hand g2) in
  '(c3, g4) ← deal_card g3;
  '(c4, g5) ← deal_card g4;
  Ok (mkGame (deck g5) (player_hand g5) [c3; c4]).

(** ** [int(card['number'])]

    The ranks the code converts are plain decimal numerals.  A string
    with any other character raises [ValueError]. *)
Definition digit_of (a : ascii) : option Z :=
  let n := Z.of_nat (nat_of_ascii a) in
  if (48 <=? n) && (n <=? 57) then Some (n - 48) else None.

Fixpoint parse_digits (s : string) (acc : Z) : option Z :=
  match s with
  | EmptyString => Some acc
  | String a s' =>
      match digit_of a with
      | Some d => parse_digits s' (10 * acc + d)
      | None => None
      end
  end.

Definition py_int (s : string) : result Z :=
  match s with
  | EmptyString => Raise ValueError
  | _ => match parse_digits s 0 with
         | Some z => Ok z
         | None => Raise ValueError
         end
  end.

(** ** [hand_value] *)

(** The [for card in hand] loop, with the running [value] and [aces]. *)
Fixpoint hand_sum (hand : list Card) (value : Z) (aces : nat)
  : result (Z * nat) :=
  match hand with
  | [] => Ok (value, aces)
  | card :: rest =>
      if bool_decide (number card ∈ ["J"; "Q"; "K"]%string) then
        hand_sum rest (value + 10) aces
      else if bool_decide (number card = "A"%string) then
        hand_sum rest (value + 11) (S aces)
      else
        n ← py_int (number card);
        hand_sum rest (value + n) aces
  end.

(** What one pass of that loop adds to [value] and to [aces]. *)
Definition card_points (card : Card) : result (Z * nat) :=
  if bool_decide (number card ∈ ["J"; "Q"; "K"]%string) then Ok (10, 0%nat)
  else if bool_decide (number card = "A"%string) then Ok (11, 1%nat)
  else n ← py_int (number card); Ok (n, 0%nat).

(** [while value > 21 and aces: value -= 10; aces -= 1], returning the
    final [value] and [aces]. *)
Fixpoint soften (value : Z) (aces : nat) : Z * nat :=
  match aces with
  | O => (value, O)
  | S aces' => if 21 <? value then soften (value - 10) aces' else (value, aces)
  end.

Definition hand_value (hand : list Card) : result Z :=
  '(value, aces) ← hand_sum hand 0 0%nat;
  Ok (fst (soften value aces)).

(** ** Status, actions and result *)

(** [game_status] *)
Definition game_status (g : Game) : result string :=
  player_value ← hand_value (player_hand g);
  if 21 <? player_value then Ok "player_bust"%string
  else if player_value =? 21 then Ok "player_blackjack"%string
  else Ok "continue"%string.

(** [player_action]: returns the status and the game after the call. *)
Definition player_action (g : Game) (action : string) : result (string * Game) :=
  g' ← (if bool_decide (action = "hit"%string) then
          '(c, g1) ← deal_card g;
          Ok (mkGame (deck g1) (player_hand g1 ++ [c]) (dealer_hand g1))
        else Ok g);
  status ← game_status g';
  Ok (status, g').

(** The loop of [dealer_action], unrolled at most [fuel] times; [None]
    when [fuel] passes were not enough. *)
Fixpoint dealer_loop (fuel : nat) (g : Game) : option (result Game) :=
  match fuel with
  | O => None
  | S fuel' =>
      match hand_value (dealer_hand g) with
      | Raise e => Some (Raise e)
      | Ok v =>
          if v <? 17 then
            match deal_card g with
            | Raise e => Some (Raise e)
            | Ok (c, g1) =>
                dealer_loop fuel'
                  (mkGame (deck g1) (player_hand g1) (dealer_hand g1 ++ [c]))
            end
          else Some (Ok g)
      end
  end.

(** [dealer_action]: every pass but the last removes a card from the
    deck, so [length (deck g) + 1] passes are always enough
    ([dealer_loop_enough_fuel] below). *)
Definition dealer_action (g : Game) : result Game :=
  match dealer_loop (S (length (deck g))) g with
  | Some r => r
  | None => Raise IndexError
  end.

(** The comparison at the end of [game_result]. *)
Definition compare_values (player_value dealer_value : Z) : string :=
  if 21 <? player_value then "loss"
  else if (21 <? dealer_value) || (dealer_value <? player_value) then "win"
  else if player_value =? dealer_value then "draw"
  else "loss".

(** [game_result]: returns the result and the game after the dealer's
    draws. *)
Definition game_result (g : Game) : result (string * Game) :=
  g' ← dealer_action g;
  player_value ← hand_value (player_hand g');
  dealer_value ← hand_value (dealer_hand g');
  Ok (compare_values player_value dealer_value, g').

(** ** A round in progress

    What holds of a game between [start_game] and [game_result] when
    the deck was a full one: every card is well formed, the dealer holds
    two cards, the player between 2 and 22, and at most four cards have
    left the game since the deck was shuffled. *)
Definition round_ok (g : Game) : Prop :=
  Forall valid_card (deck g ++ player_hand g ++ dealer_hand g) /\
  length (dealer_hand g) = 2%nat /\
  (2 <= length (player_hand g) <= 22)%nat /\
  (46 <= length (player_hand g) + length (deck g))%nat.

(** ** Some concrete games *)

(** The player holds a natural 21; the dealer holds 16. *)
Definition natural_game : Game :=
  mkGame [mkCard "3" "clubs"; mkCard "8" "hearts"]
         [mkCard "A" "spades"; mkCard "K" "hearts"]
         [mkCard "7" "diamonds"; mkCard "9" "clubs"].

(** The player holds 20 against the dealer's 19. *)
Definition twenty_game : Game :=
  mkGame [mkCard "3" "clubs"; mkCard "8" "hearts"]
         [mkCard "10" "hearts"; mkCard "K" "spades"]
         [mkCard "9" "diamonds"; mkCard "Q" "clubs"].

(** The dealer holds a soft 16 and the next card is a king. *)
Definition soft16_game : Game :=
  mkGame [mkCard "2" "diamonds"; mkCard "K" "clubs"]
         [mkCard "10" "hearts"; mkCard "8" "spades"]
         [mkCard "A" "spades"; mkCard "5" "hearts"].

(** The player holds a soft 16 against the dealer's king. *)
Definition soft16_player_game : Game :=
  mkGame [mkCard "2" "diamonds"; mkCard "K" "clubs"]
         [mkCard "A" "spades"; mkCard "5" "hearts"]
         [mkCard "K" "diamonds"; mkCard "7" "clubs"].

(** The player holds a hard 16 with an ace against the dealer's king. *)
Definition hard16_player_game : Game :=
  mkGame [mkCard "2" "diamonds"; mkCard "4" "clubs"]
         [mkCard "A" "spades"; mkCard "5" "hearts"; mkCard "K" "clubs"]
         [mkCard "K" "diamonds"; mkCard "7" "clubs"].

End Blackjack.

(** ** Python arithmetic used by both [train] methods *)

(** [round(episodes / 100)]: rounding to the nearest integer, a half
    going to the even neighbour.  The quotient is taken exactly; the
    float quotient of the code rounds to the same integer for every
    count of episodes below 2^53 / 100. *)
Definition py_round_percent (episodes : Z) : Z :=
  let q := episodes / 100 in
  let r := episodes mod 100 in
  if r <? 50 then q
  else if 50 <? r then q + 1
  else if Z.even q then q else q + 1.

(** [a % b] *)
Definition py_mod (a b : Z) : result Z :=
  if b =? 0 then Raise ZeroDivisionError else Ok (a mod b).

(** [for x in xs: state = body(state, x)], stopping at the first
    exception. *)
Fixpoint for_each {S X} (body : S -> X -> result S) (xs : list X) (s : S)
  : result S :=
  match xs with
  | [] => Ok s
  | x :: xs' => s' ← body s x; for_each body xs' s'
  end.

(** [range(n)] *)
Definition py_range (n : Z) : list Z :=
  map Z.of_nat (seq 0 (Z.to_nat n)).

(** [hand[0]] *)
Definition first {A} (l : list A) : result A :=
  match l with
  | [] => Raise IndexError
  | x :: _ => Ok x
  end.

(** ** The Q-Learning agent ([qlearning.py]) *)

Module QLearning.
Import Blackjack.

(** [has_usable_ace]: the [for] loop with the running [value] and [ace]. *)
Fixpoint usable_ace_loop (hand : list Card) (value : Z) (ace : bool)
  : result (Z * bool) :=
  match hand with
  | [] => Ok (value, ace)
  | card :: rest =>
      let card_number := number card in
      n ← (if bool_decide (card_number ∈ ["J"; "Q"; "K"; "A"]%string)
           then Ok 11 else py_int card_number);
      usable_ace_loop rest (value + Z.min 10 n)
        (ace || bool_decide (card_number = "A"%string))
  end.

(** [return int(ace and value + 10 <= 21)] *)
Definition has_usable_ace (hand : list Card) : result Z :=
  '(value, ace) ← usable_ace_loop hand 0 false;
  Ok (if ace && (value + 10 <=? 21) then 1 else 0).

(** The dealer's first card as a number: J, Q, K are 10, A is 11. *)
Definition dealer_card_value (g : Game) : result Z :=
  c ← first (dealer_hand g);
  if bool_decide (number c ∈ ["J"; "Q"; "K"; "A"]%string) then
    Ok (if bool_decide (number c ≠ "A"%string) then 10 else 11)
  else py_int (number c).

Section Agent.

(** The table holds floats; the development is parametric in their type
    and operations. *)
Variable R : Type.
Variables (rzero : R) (of_int : Z -> R).
Variables (radd rsub rmul rmax : R -> R -> R).
Variable rltb : R -> R -> bool.

(** One call of [np.random.uniform(0, 1)] and, when it is taken, of
    [np.random.choice(["hit", "stay"])] ([pick_hit] tells which). *)
Record Draw : Type := mkDraw { uniform : R; pick_hit : bool }.

(** [self.Q] is a 33 x 12 x 2 x 2 array, kept as its row-major buffer. *)
Record Agent : Type := mkAgent {
  alpha : R;
  gamma : R;
  epsilon : R;
  Q : list R
}.

(** [__init__] *)
Definition init (alpha gamma epsilon : R) : Agent :=
  mkAgent alpha gamma epsilon (replicate (33 * 12 * 2 * 2) rzero).

(** An index along an axis of length [n]: negative indices count from
    the end, anything outside [-n, n) raises [IndexError]. *)
Definition axis_index (n i : Z) : result Z :=
  if (0 <=? i) && (i <? n) then Ok i
  else if (- n <=? i) && (i <? 0) then Ok (i + n)
  else Raise IndexError.

(** Position of [Q[p, d, u, a]] in the buffer. *)
Definition offset (p d u a : Z) : result nat :=
  p' ← axis_index 33 p;
  d' ← axis_index 12 d;
  u' ← axis_index 2 u;
  a' ← axis_index 2 a;
  Ok (Z.to_nat (((p' * 12 + d') * 2 + u') * 2 + a')).

(** [Q[p, d, u, a]] *)
Definition Q_get (q : list R) (p d u a : Z) : result R :=
  o ← offset p d u a;
  match q !! o with
  | Some x => Ok x
  | None => Raise IndexError
  end.

(** [Q[p, d, u, a] = x] *)
Definition Q_set (q : list R) (p d u a : Z) (x : R) : result (list R) :=
  o ← offset p d u a;
  Ok (<[o := x]> q).

(** [np.max(Q[p, d, u])] *)
Definition Q_max (q : list R) (p d u : Z) : result R :=
  x0 ← Q_get q p d u 0;
  x1 ← Q_get q p d u 1;
  Ok (rmax x0 x1).

(** [choose_action] *)
Definition choose_action (ag : Agent) (player_sum dealer_card usable_ace : Z)
    (dr : Draw) : result string :=
  if rltb (uniform dr) (epsilon ag) then
    Ok (if pick_hit dr then "hit" else "stay")%string
  else
    hit_value ← Q_get (Q ag) player_sum dealer_card usable_ace 0;
    stay_value ← Q_get (Q ag) player_sum dealer_card usable_ace 1;
    Ok (if rltb stay_value hit_value then "hit" else "stay")%string.

(** The right-hand side of the assignment in [update]. *)
Definition td_target (ag : Agent) (old_value : R) (reward : Z) (future_max : R)
  : R :=
  radd old_value
    (rmul (alpha ag)
       (rsub (radd (of_int reward) (rmul (gamma ag) future_max)) old_value)).

(** [update] *)
Definition update (ag : Agent) (player_sum dealer_card usable_ace : Z)
    (action : string) (reward : Z)
    (new_player_sum new_dealer_card new_usable_ace : Z) : result Agent :=
  let action_idx := if bool_decide (action = "hit"%string) then 0 else 1 in
  old_value ← Q_get (Q ag) player_sum dealer_card usable_ace action_idx;
  future_max ← Q_max (Q ag) new_player_sum new_dealer_card new_usable_ace;
  q' ← Q_set (Q ag) player_sum dealer_card usable_ace action_idx
         (td_target ag old_value reward future_max);
  Ok (mkAgent (alpha ag) (gamma ag) (epsilon ag) q').

(** The variables of [train]'s inner loop that outlive it. *)
Record Step : Type := mkStep {
  player_sum : Z;
  usable_ace : Z;
  action : string;
  new_player_sum : Z;
  new_usable_ace : Z
}.

(** One pass of [while status == "continue"] in [train]; the boolean
    tells whether the loop goes round again. *)
Definition train_step (ag : Agent) (g : Game) (dealer_card : Z) (dr : Draw)
  : result (Agent * Game * Step * bool) :=
  player_sum ← hand_value (player_hand g);
  usable_ace ← has_usable_ace (player_hand g);
  action ← choose_action ag player_sum dealer_card usable_ace dr;
  '(status, g') ← player_action g action;
  new_player_sum ← hand_value (player_hand g');
  new_usable_ace ← has_usable_ace (player_hand g');
  let reward :=
    if bool_decide (status = "player_blackjack"%string) then 1
    else if bool_decide (status = "player_bust"%string) then -1
    else 0 in
  ag' ← (if bool_decide (reward ≠ 0) then
           update ag player_sum dealer_card usable_ace action reward
             new_player_sum dealer_card new_usable_ace
         else Ok ag);
  let st := mkStep player_sum usable_ace action new_player_sum new_usable_ace in
  Ok (ag', g', st,
      negb (bool_decide (action = "stay"%string))
      && bool_decide (status = "continue"%string)).

(** The inner loop, unrolled at most [fuel] times; the [i]-th pass uses
    the draw [draws i]. *)
Fixpoint train_loop (fuel : nat) (ag : Agent) (g : Game) (dealer_card : Z)
    (draws : nat -> Draw) (i : nat) : option (result (Agent * Game * Step)) :=
  match fuel with
  | O => None
  | S fuel' =>
      match train_step ag g dealer_card (draws i) with
      | Raise e => Some (Raise e)
      | Ok (ag', g', st, again) =>
          if again then train_loop fuel' ag' g' dealer_card draws (S i)
          else Some (Ok (ag', g', st))
      end
  end.

(** The body of [for ep in range(episodes)] in [train].  [shuffled] is
    the deck of the new game and [draws] the random draws of the
    episode.  The progress line printed when [ep % one_percent == 0] is
    output only. *)
Definition train_episode (one_percent : Z) (shuffled : list Card)
    (draws : nat -> Draw) (ag : Agent) (ep : Z) : result Agent :=
  g ← start_game (new_game shuffled);
  _ ← py_mod ep one_percent;
  dealer_card ← dealer_card_value g;
  '(ag1, g1, st) ← default (Raise IndexError)
     (train_loop (S (length (deck g))) ag g dealer_card draws 0%nat);
  '(final_result, _) ← game_result g1;
  let final_reward :=
    if bool_decide (final_result = "win"%string) then 1
    else if bool_decide (final_result = "loss"%string) then -1
    else 0 in
  update ag1 (player_sum st) dealer_card (usable_ace st) (action st)
    final_reward (new_player_sum st) dealer_card (new_usable_ace st).

(** [train]: [shuffles ep] and [draws ep] are the randomness of episode
    [ep]. *)
Definition train (shuffles : Z -> list Card) (draws : Z -> nat -> Draw)
    (ag : Agent) (episodes : Z) : result Agent :=
  let one_percent := py_round_percent episodes in
  for_each
    (fun ag ep => train_episode one_percent (shuffles ep) (draws ep) ag ep)
    (py_range episodes) ag.

(** A table of the shape [__init__] allocates. *)
Definition table_ok (ag : Agent) : Prop := length (Q ag) = 1584%nat.

(** The entries [Q[p, d, 1, a]] of two tables agree. *)
Definition same_usable_half (q q' : list R) : Prop :=
  forall p d a, 0 <= p < 33 -> 0 <= d < 12 -> 0 <= a < 2 ->
    Q_get q' p d 1 a = Q_get q p d 1 a.

(** One pass of [while status == "continue"] in [play]: the game and
    the status after it, and whether the loop goes round again. *)
Definition play_step (ag : Agent) (g : Game) (dr : Draw)
  : result (Game * string * bool) :=
  player_sum ← hand_value (player_hand g);
  usable_ace ← has_usable_ace (player_hand g);
  dealer_card ← dealer_card_value g;
  action ← choose_action ag player_sum dealer_card usable_ace dr;
  '(status, g') ← player_action g action;
  Ok (g', status,
      negb (bool_decide (action = "stay"%string))
      && bool_decide (status = "continue"%string)).

(** The loop of [play], unrolled at most [fuel] times. *)
Fixpoint play_loop (fuel : nat) (ag : Agent) (g : Game)
    (draws : nat -> Draw) (i : nat) : option (result (Game * string)) :=
  match fuel with
  | O => None
  | S fuel' =>
      match play_step ag g (draws i) with
      | Raise e => Some (Raise e)
      | Ok (g', status, again) =>
          if again then play_loop fuel' ag g' draws (S i)
          else Some (Ok (g', status))
      end
  end.

(** [play]; the lines it prints are output only. *)
Definition play (shuffled : list Card) (draws : nat -> Draw) (ag : Agent)
  : result string :=
  g ← start_game (new_game shuffled);
  '(g1, status) ← default (Raise IndexError)
     (play_loop (S (length (deck g))) ag g draws 0%nat);
  g2 ← (if bool_decide (status = "continue"%string) then dealer_action g1
        else Ok g1);
  '(final_result, _) ← game_result g2;
  Ok final_result.

(** The indices kept in a [Step] lie within the table, the usable-ace
    ones being 0. *)
Definition step_ok (st : Step) : Prop :=
  0 <= player_sum st < 33 /\ usable_ace st = 0 /\
  0 <= new_player_sum st < 33 /\ new_usable_ace st = 0.

End Agent.
End QLearning.

(** ** The Monte Carlo agent ([montecarlo.py]) *)

Module MonteCarlo.
Import Blackjack.

(** [has_usable_ace]: the [for] loop with the running [value] and [ace]. *)
Fixpoint usable_ace_loop (hand : list Card) (value : Z) (ace : bool)
  : result (Z * bool) :=
  match hand with
  | [] => Ok (value, ace)
  | card :: rest =>
      let card_number := number card in
      n ← (if bool_decide (card_number ∈ ["J"; "Q"; "K"; "A"]%string)
           then Ok 11 else py_int card_number);
      usable_ace_loop rest (value + Z.min 10 n)
        (ace || bool_decide (card_number = "A"%string))
  end.

(** [return int(ace and value + 10 <= 21)] *)
Definition has_usable_ace (hand : list Card) : result Z :=
  '(value, ace) ← usable_ace_loop hand 0 false;
  Ok (if ace && (value + 10 <=? 21) then 1 else 0).

(** The state tuple built in [generate_episode]:
    [(game.hand_value(game.player_hand), game.dealer_hand[0]['number'],
      'A' in [card['number'] for card in game.player_hand])]. *)
Abbreviation State := (Z * string * bool)%type.

Definition episode_state (g : Game) : result State :=
  v ← hand_value (player_hand g);
  c ← first (dealer_hand g);
  Ok (v, number c, bool_decide ("A"%string ∈ map number (player_hand g))).

(** The state read at the top of the loop of [play]:
    [player_sum], the converted [dealer_card] and [int(usable_ace)]. *)
Definition play_state (g : Game) : result (Z * Z * Z) :=
  player_sum ← hand_value (player_hand g);
  usable_ace ← has_usable_ace (player_hand g);
  c ← first (dealer_hand g);
  dealer_card ← (if bool_decide (number c ∈ ["J"; "Q"; "K"]%string) then Ok 10
                 else if bool_decide (number c = "A"%string) then Ok 11
                 else py_int (number c));
  Ok (player_sum, dealer_card, usable_ace).

(** *** The state as the specification describes it

    The flag is 1 when, after the softening loop of [hand_value], an ace
    is still counted as 11 and the hand does not exceed 21; the dealer's
    card is a number, J, Q, K being 10 and A being 11. *)
Definition usable_ace_flag (hand : list Card) : result Z :=
  '(value, aces) ← hand_sum hand 0 0%nat;
  let '(v, counted_as_11) := soften value aces in
  Ok (if (0 <? Z.of_nat counted_as_11) && (v <=? 21) then 1 else 0).

Definition spec_state (g : Game) : result (Z * Z * Z) :=
  player_sum ← hand_value (player_hand g);
  c ← first (dealer_hand g);
  dealer_card ← (if bool_decide (number c ∈ ["J"; "Q"; "K"]%string) then Ok 10
                 else if bool_decide (number c = "A"%string) then Ok 11
                 else py_int (number c));
  usable_ace ← usable_ace_flag (player_hand g);
  Ok (player_sum, dealer_card, usable_ace).

Section Agent.

(** [Q] holds floats: [true_div] is [/] on two integers, [rltb] is [<]. *)
Variable R : Type.
Variable true_div : Z -> Z -> R.
Variable rltb : R -> R -> bool.

(** An inner dictionary [Q[state]], as its items in insertion order. *)
Abbreviation ActionValues := (list (string * R)).

(** [d[k] = v]: an existing key keeps its place. *)
Fixpoint dict_set (d : ActionValues) (k : string) (v : R) : ActionValues :=
  match d with
  | [] => [(k, v)]
  | (k', v') :: d' =>
      if decide (k' = k) then (k, v) :: d' else (k', v') :: dict_set d' k v
  end.

(** [d.get(k)] *)
Fixpoint dict_get (d : ActionValues) (k : string) : option R :=
  match d with
  | [] => None
  | (k', v') :: d' => if decide (k' = k) then Some v' else dict_get d' k
  end.

(** [max(d, key=d.get)]: the first key whose value no later one
    exceeds; [best] is replaced only by a strictly greater item. *)
Fixpoint max_from (best : string * R) (rest : ActionValues) : string :=
  match rest with
  | [] => fst best
  | x :: rest' =>
      if rltb (snd best) (snd x) then max_from x rest' else max_from best rest'
  end.

Definition py_max_key (d : ActionValues) : result string :=
  match d with
  | [] => Raise ValueError
  | x :: rest => Ok (max_from x rest)
  end.

(** [sum(l)] *)
Definition py_sum (l : list Z) : Z := fold_left Z.add l 0.

(** [sum(l) / len(l)] *)
Definition mean (l : list Z) : R :=
  true_div (py_sum l) (Z.of_nat (length l)).

(** [best] is a key of [d] whose value no value of [d] exceeds. *)
Definition is_max_key (d : ActionValues) (best : string) : Prop :=
  exists vbest, dict_get d best = Some vbest /\
    forall a v, dict_get d a = Some v -> rltb vbest v = false.

(** The three dictionaries of the agent.  A key absent from [policy]
    reads as [None], and so does a key that holds [None]. *)
Record Agent : Type := mkAgent {
  Q : gmap State ActionValues;
  returns : gmap (State * string) (list Z);
  policy : gmap State (option string)
}.

(** [__init__] *)
Definition init : Agent := mkAgent ∅ ∅ ∅.

(** The inner dictionaries have no repeated key. *)
Definition keys_unique (ag : Agent) : Prop :=
  forall state values, Q ag !! state = Some values -> NoDup values.*1.

(** After its last visit a pair is settled: its value is the mean of
    its return history, and the policy of its state is a key of
    maximal value. *)
Definition settled (ag : Agent) (state : State) (action : string) : Prop :=
  exists history values best,
    returns ag !! (state, action) = Some history /\
    Q ag !! state = Some values /\
    dict_get values action = Some (mean history) /\
    policy ag !! state = Some (Some best) /\
    is_max_key values best.

(** [self.policy[state]] on the [defaultdict(lambda: None)]: a missing
    key is inserted with [None]. *)
Definition policy_read (ag : Agent) (state : State) : option string * Agent :=
  match policy ag !! state with
  | Some a => (a, ag)
  | None => (None, mkAgent (Q ag) (returns ag) (<[state := None]> (policy ag)))
  end.

(** The loop of [generate_episode], unrolled at most [fuel] times.
    [episode] is kept in order of appending. *)
Fixpoint episode_loop (fuel : nat) (ag : Agent) (g : Game) (action : string)
    (episode : list (State * string))
  : option (result (Agent * Game * list (State * string))) :=
  match fuel with
  | O => None
  | S fuel' =>
      match game_status g with
      | Raise e => Some (Raise e)
      | Ok status =>
          if bool_decide (status = "continue"%string)
             && bool_decide (action = "hit"%string) then
            match player_action g "hit" with
            | Raise e => Some (Raise e)
            | Ok (_, g') =>
                match episode_state g' with
                | Raise e => Some (Raise e)
                | Ok state =>
                    let '(p, ag') := policy_read ag state in
                    let action' := match p with Some a => a | None => action end in
                    episode_loop fuel' ag' g' action'
                      (episode ++ [(state, action')])
                end
            end
          else Some (Ok (ag, g, episode))
      end
  end.

(** [generate_episode]; [first_hit] is the outcome of
    [random.choice(["hit", "stay"])]. *)
Definition generate_episode (first_hit : bool) (ag : Agent) (g : Game)
  : result (Agent * list (State * string) * string) :=
  g0 ← start_game g;
  state ← episode_state g0;
  let action := (if first_hit then "hit" else "stay")%string in
  '(ag1, g1, episode) ← default (Raise IndexError)
     (episode_loop (S (length (deck g0))) ag g0 action [(state, action)]);
  '(res, _) ← game_result g1;
  Ok (ag1, episode, res).

(** [G = 1 if result == "win" else -1] *)
Definition terminal_signal (res : string) : Z :=
  if bool_decide (res = "win"%string) then 1 else -1.

(** The body of [for state, action in episode] in [train]. *)
Definition visit (G : Z) (ag : Agent) (sa : State * string) : result Agent :=
  let '(state, action) := sa in
  let history := default [] (returns ag !! (state, action)) ++ [G] in
  let values :=
    dict_set (default [] (Q ag !! state)) action (mean history) in
  best ← py_max_key values;
  Ok (mkAgent (<[state := values]> (Q ag))
              (<[(state, action) := history]> (returns ag))
              (<[state := Some best]> (policy ag))).

(** The updates [train] makes after one episode. *)
Definition update_episode (ag : Agent) (episode : list (State * string))
    (res : string) : result Agent :=
  for_each (visit (terminal_signal res)) episode ag.

(** The body of [for ep in range(episodes)] in [train]. *)
Definition train_episode (one_percent : Z) (shuffled : list Card)
    (first_hit : bool) (ag : Agent) (ep : Z) : result Agent :=
  g ← start_game (new_game shuffled);
  _ ← py_mod ep one_percent;
  '(ag1, episode, res) ← generate_episode first_hit ag g;
  update_episode ag1 episode res.

(** [train]: [shuffles ep] and [first_hits ep] are the randomness of
    episode [ep]. *)
Definition train (shuffles : Z -> list Card) (first_hits : Z -> bool)
    (ag : Agent) (episodes : Z) : result Agent :=
  let one_percent := py_round_percent episodes in
  for_each
    (fun ag ep =>
       train_episode one_percent (shuffles ep) (first_hits ep) ag ep)
    (py_range episodes) ag.

End Agent.

(** *** [play]

    [play] looks [Q] up with keys of four integers, while [train] stores
    it under the three-part states of [generate_episode]; keys are
    compared as Python compares tuples. *)

(** The values that occur in a key of [Q]. *)
Inductive pyval : Type :=
| PyInt (z : Z)
| PyStr (s : string)
| PyBool (b : bool).

(** [x == y]: [True] and [False] equal 1 and 0; a string equals no
    number. *)
Definition pyval_eqb (x y : pyval) : bool :=
  match x, y with
  | PyInt a, PyInt b => a =? b
  | PyStr a, PyStr b => bool_decide (a = b)
  | PyBool a, PyBool b => bool_decide (a = b)
  | PyInt a, PyBool b | PyBool b, PyInt a => a =? (if b then 1 else 0)
  | _, _ => false
  end.

(** [==] on tuples: the same length and equal items. *)
Fixpoint tuple_eqb (xs ys : list pyval) : bool :=
  match xs, ys with
  | [], [] => true
  | x :: xs', y :: ys' => pyval_eqb x y && tuple_eqb xs' ys'
  | _, _ => false
  end.

(** A state of [generate_episode] as the tuple it is. *)
Definition state_tuple (state : State) : list pyval :=
  let '(player_sum, dealer_number, has_ace) := state in
  [PyInt player_sum; PyStr dealer_number; PyBool has_ace].

(** How a statement of [play] ends: normally, with an exception of the
    environment, or with the [TypeError] of comparing a dictionary. *)
Inductive outcome (A : Type) : Type :=
| Done (a : A)
| EnvError (e : exn)
| TypeError.
Arguments Done {A} a.
Arguments EnvError {A} e.
Arguments TypeError {A}.

Definition of_result {A} (m : result A) : outcome A :=
  match m with
  | Ok a => Done a
  | Raise e => EnvError e
  end.

Section Play.

Variable R : Type.
Variable rzero : R.               (* 0.0 *)
Variable rltb : R -> R -> bool.

(** [self.Q.get(key, 0.0)]: the inner dictionary stored under a key
    equal to [key], or the default; [get] inserts nothing. *)
Definition Q_get_default (ag : Agent R) (key : list pyval)
  : R + list (string * R) :=
  match list_find (fun kv => Is_true (tuple_eqb (state_tuple kv.1) key))
          (map_to_list (Q R ag)) with
  | Some (_, (_, values)) => inr values
  | None => inl rzero
  end.

(** [x > y], defined between two floats only. *)
Definition py_gt (x y : R + list (string * R)) : option bool :=
  match x, y with
  | inl a, inl b => Some (rltb b a)
  | _, _ => None
  end.

(** The choice of [play]: ["hit" if hit_value > stay_value else "stay"]. *)
Definition play_action (ag : Agent R) (player_sum dealer_card usable_ace : Z)
  : option string :=
  let hit_value :=
    Q_get_default ag
      [PyInt player_sum; PyInt dealer_card; PyInt usable_ace; PyInt 0] in
  let stay_value :=
    Q_get_default ag
      [PyInt player_sum; PyInt dealer_card; PyInt usable_ace; PyInt 1] in
  match py_gt hit_value stay_value with
  | Some true => Some "hit"%string
  | Some false => Some "stay"%string
  | None => None
  end.

(** One pass of [while status == "continue"] in [play]; the boolean
    tells whether the loop goes round again. *)
Definition play_step (ag : Agent R) (g : Game)
  : outcome (Game * string * bool) :=
  match play_state g with
  | Raise e => EnvError e
  | Ok (player_sum, dealer_card, usable_ace) =>
      match play_action ag player_sum dealer_card usable_ace with
      | None => TypeError
      | Some action =>
          match player_action g action with
          | Raise e => EnvError e
          | Ok (status, g') =>
              Done (g', status,
                    negb (bool_decide (action = "stay"%string)
                          || negb (bool_decide (status = "continue"%string))))
          end
      end
  end.

(** The loop of [play], unrolled at most [fuel] times. *)
Fixpoint play_loop (fuel : nat) (ag : Agent R) (g : Game)
  : option (outcome (Game * string)) :=
  match fuel with
  | O => None
  | S fuel' =>
      match play_step ag g with
      | Done (g', status, again) =>
          if again then play_loop fuel' ag g' else Some (Done (g', status))
      | EnvError e => Some (EnvError e)
      | TypeError => Some TypeError
      end
  end.

(** What [play] does once its loop is left. *)
Definition play_finish (g1 : Game) (status : string) : result string :=
  g2 ← (if bool_decide (status = "continue"%string) then dealer_action g1
        else Ok g1);
  '(final_result, _) ← game_result g2;
  Ok final_result.

(** [play]; the lines it prints are output only. *)
Definition play (shuffled : list Card) (ag : Agent R) : outcome string :=
  match start_game (new_game shuffled) with
  | Raise e => EnvError e
  | Ok g =>
      match default (EnvError IndexError)
              (play_loop (S (length (deck g))) ag g) with
      | Done (g1, status) => of_result (play_finish g1 status)
      | EnvError e => EnvError e
      | TypeError => TypeError
      end
  end.

(** The game [play] would play if it always chose [stay]. *)
Definition play_staying (shuffled : list Card) : result string :=
  g ← start_game (new_game shuffled);
  _ ← play_state g;
  '(status, g1) ← player_action g "stay";
  play_finish g1 status.

End Play.

(** The actions an agent has stored are the two moves of the game. *)
Definition actions_ok {R : Type} (ag : Agent R) : Prop :=
  (forall state a, policy R ag !! state = Some (Some a) ->
     a = "hit"%string \/ a = "stay"%string) /\
  (forall state values a, Q R ag !! state = Some values -> a ∈ values.*1 ->
     a = "hit"%string \/ a = "stay"%string).

End MonteCarlo.

(** * Properties of the environment *)

(** Runs the binds whose first argument is already a value or an
    exception, and unfolds nothing else. *)
Ltac simpl_bind := cbv beta iota delta [mbind result_bind].

Section Environment.
Import Blackjack.

(** ** [pop] and the deck *)

Lemma pop_snoc {A} (l : list A) (x : A) : pop (l ++ [x]) = Ok (l, x).
Proof.
  induction l as [|y l IH]; [reflexivity|].
  destruct l as [|z l]; [reflexivity|].
  change (pop ((y :: z :: l) ++ [x]))
    with ('(r, w) ← pop ((z :: l) ++ [x]); Ok (y :: r, w)).
  rewrite IH. reflexivity.
Qed.

Lemma pop_Ok {A} (l r : list A) (x : A) : pop l = Ok (r, x) -> l = r ++ [x].
Proof.
  destruct l as [|y l] using rev_ind; [discriminate|].
  rewrite pop_snoc. congruence.
Qed.

Lemma pop_nil_iff {A} (l : list A) : pop l = Raise IndexError <-> l = [].
Proof.
  split; [|intros ->; reflexivity].
  destruct l as [|y l] using rev_ind; [reflexivity|].
  rewrite pop_snoc. discriminate.
Qed.

Lemma pop_error {A} (l : list A) e : pop l = Raise e -> l = [] /\ e = IndexError.
Proof.
  destruct l as [|y l] using rev_ind.
  - cbn. intros [= <-]. auto.
  - rewrite pop_snoc. discriminate.
Qed.

Lemma deal_card_Ok g c g' :
  deal_card g = Ok (c, g') ->
  deck g = deck g' ++ [c] /\ player_hand g' = player_hand g
  /\ dealer_hand g' = dealer_hand g.
Proof.
  unfold deal_card. destruct (pop (deck g)) as [[r x]|e] eqn:E; [|discriminate].
  cbn. intros [= <- <-]. cbn. auto using pop_Ok.
Qed.

Lemma deal_card_error g e :
  deal_card g = Raise e -> deck g = [] /\ e = IndexError.
Proof.
  unfold deal_card. destruct (pop (deck g)) as [[r x]|e'] eqn:E.
  - discriminate.
  - cbn. intros [= <-]. eauto using pop_error.
Qed.

Lemma deal_card_snoc d c p h :
  deal_card (mkGame (d ++ [c]) p h) = Ok (c, mkGame d p h).
Proof. unfold deal_card. cbn. rewrite pop_snoc. reflexivity. Qed.

Lemma generate_deck_length : length generate_deck = 52%nat.
Proof. reflexivity. Qed.

Lemma generate_deck_NoDup : NoDup generate_deck.
Proof. apply (bool_decide_unpack _). vm_compute. reflexivity. Qed.

End Environment.

Section Deck.
Import Blackjack.

(** ** Dealing from a shuffled deck *)

Lemma deal_n_split k g dealt g' :
  deal_n k g = Ok (dealt, g') ->
  deck g = deck g' ++ rev dealt /\ length dealt = k.
Proof.
  revert g dealt g'. induction k as [|k IH]; intros g dealt g'; cbn.
  - intros [= <- <-]. cbn. rewrite app_nil_r. auto.
  - destruct (deal_card g) as [[c g1]|e] eqn:E; [|discriminate]. cbn.
    destruct (deal_n k g1) as [[cs g2]|e] eqn:E2; [|discriminate]. cbn.
    intros [= <- <-]. apply deal_card_Ok in E as (Hd & _ & _).
    apply IH in E2 as [Hd2 Hl]. cbn. rewrite Hd, Hd2, <- app_assoc.
    auto.
Qed.

Lemma deal_n_enough k g :
  (k <= length (deck g))%nat -> exists dealt g', deal_n k g = Ok (dealt, g').
Proof.
  revert g. induction k as [|k IH]; intros g Hk; cbn; [eauto|].
  destruct g as [d p h]. cbn in Hk.
  destruct d as [|c d _] using rev_ind; [cbn in Hk; lia|].
  rewrite deal_card_snoc. cbn.
  rewrite length_app in Hk. cbn in Hk.
  destruct (IH (mkGame d p h)) as (cs & g2 & ->); [cbn; lia|].
  cbn. eauto.
Qed.

(** C7: a fresh deck holds 52 distinct cards, and after [k] cards have
    been dealt from a shuffled deck, [52 - k] cards remain, still
    distinct, none of which is a card that was dealt. *)
Theorem deck_after_deals (shuffled : list Card) (k : nat) :
  Permutation generate_deck shuffled ->
  (k <= 52)%nat ->
  length generate_deck = 52%nat /\ NoDup generate_deck /\
  exists dealt g',
    deal_n k (new_game shuffled) = Ok (dealt, g') /\
    length dealt = k /\
    length (deck g') = (52 - k)%nat /\
    NoDup (deck g') /\
    (forall c, c ∈ dealt -> c ∉ deck g').
Proof.
  intros Hperm Hk.
  split; [apply generate_deck_length|].
  split; [apply generate_deck_NoDup|].
  assert (Hlen : length shuffled = 52%nat).
  { rewrite <- (Permutation_length Hperm). apply generate_deck_length. }
  assert (Hnd : NoDup shuffled).
  { rewrite <- Hperm. apply generate_deck_NoDup. }
  destruct (deal_n_enough k (new_game shuffled)) as (dealt & g' & Hd).
  { cbn. lia. }
  exists dealt, g'. split; [exact Hd|].
  apply deal_n_split in Hd as [Hsplit Hl]. cbn in Hsplit.
  rewrite Hsplit in Hlen, Hnd.
  rewrite length_app, length_rev in Hlen.
  apply NoDup_app in Hnd as (Hnd1 & Hdisj & _).
  repeat split; [exact Hl|lia|exact Hnd1|].
  intros c Hc Hin. apply (Hdisj c Hin).
  apply list_elem_of_In, in_rev. rewrite rev_involutive.
  apply list_elem_of_In, Hc.
Qed.

Lemma deck_after_deals_witness :
  exists dealt g',
    deal_n 4 (new_game generate_deck) = Ok (dealt, g') /\
    length (deck g') = 48%nat.
Proof.
  destruct (deck_after_deals generate_deck 4) as (_ & _ & dealt & g' & H);
    [reflexivity | lia |].
  exists dealt, g'. destruct H as (H1 & _ & H3 & _). split; [exact H1|exact H3].
Defined.

End Deck.

Section Hands.
Import Blackjack.

(** ** [hand_value] does not depend on the order of the hand *)

Lemma py_int_error s e : py_int s = Raise e -> e = ValueError.
Proof.
  unfold py_int. destruct s; [congruence|].
  destruct (parse_digits _ _); congruence.
Qed.

Lemma card_points_error card e : card_points card = Raise e -> e = ValueError.
Proof.
  unfold card_points. repeat case_bool_decide; try discriminate.
  destruct (py_int (number card)) eqn:E; cbn; [discriminate|].
  intros [= <-]. eauto using py_int_error.
Qed.

Lemma hand_sum_cons card rest value aces :
  hand_sum (card :: rest) value aces =
  '(n, a) ← card_points card; hand_sum rest (value + n) (a + aces).
Proof.
  unfold card_points. cbn [hand_sum].
  repeat case_bool_decide; try reflexivity.
  destruct (py_int (number card)); reflexivity.
Qed.

Lemma hand_sum_swap c1 c2 rest value aces :
  hand_sum (c1 :: c2 :: rest) value aces = hand_sum (c2 :: c1 :: rest) value aces.
Proof.
  rewrite (hand_sum_cons c1), (hand_sum_cons c2 (c1 :: rest)).
  destruct (card_points c1) as [[n1 a1]|e1] eqn:E1,
           (card_points c2) as [[n2 a2]|e2] eqn:E2;
    simpl_bind;
    rewrite ?hand_sum_cons, ?E1, ?E2;
    simpl_bind; try reflexivity.
  - replace (value + n1 + n2) with (value + n2 + n1) by lia.
    replace (a2 + (a1 + aces))%nat with (a1 + (a2 + aces))%nat by lia.
    reflexivity.
  - apply card_points_error in E1, E2. congruence.
Qed.

Lemma hand_sum_perm h1 h2 :
  Permutation h1 h2 ->
  forall value aces, hand_sum h1 value aces = hand_sum h2 value aces.
Proof.
  induction 1 as [|c h1 h2 _ IH|c1 c2 h|h1 h2 h3 _ IH1 _ IH2];
    intros value aces.
  - reflexivity.
  - rewrite !hand_sum_cons. destruct (card_points c) as [[n a]|]; cbn; auto.
  - apply hand_sum_swap.
  - rewrite IH1. apply IH2.
Qed.

(** C8: [hand_value] gives the same result on every permutation of a
    hand. *)
Theorem hand_value_perm (h1 h2 : list Card) :
  Permutation h1 h2 -> hand_value h1 = hand_value h2.
Proof.
  intros H. unfold hand_value. rewrite (hand_sum_perm h1 h2 H). reflexivity.
Qed.

Lemma hand_value_perm_witness :
  hand_value [mkCard "A" "spades"; mkCard "5" "hearts"; mkCard "K" "clubs"]
  = hand_value [mkCard "K" "clubs"; mkCard "A" "spades"; mkCard "5" "hearts"].
Proof.
  apply hand_value_perm.
  apply Permutation_sym, (Permutation_cons_append [_; _]).
Defined.

End Hands.

Section Dealer.
Import Blackjack.

(** ** Lower bound on the value of a hand *)

Lemma valid_card_points c :
  valid_card c ->
  exists n a, card_points c = Ok (n, a) /\ 1 <= n - 10 * Z.of_nat a.
Proof.
  destruct c as [n s]. unfold valid_card, numbers. cbn [number].
  rewrite !elem_of_cons, elem_of_nil.
  intros H. repeat (destruct H as [->|H]); try contradiction;
    vm_compute; eexists _, _; (split; [reflexivity|]);
    intros [=].
Qed.

Lemma soften_lower value aces :
  value - 10 * Z.of_nat aces <= fst (soften value aces).
Proof.
  revert value. induction aces as [|a IH]; intros value; cbn [soften fst].
  - lia.
  - destruct (21 <? value); cbn [fst]; [specialize (IH (value - 10))|]; lia.
Qed.

Lemma hand_sum_valid hand value aces :
  Forall valid_card hand ->
  exists v a, hand_sum hand value aces = Ok (v, a) /\
    value - 10 * Z.of_nat aces + Z.of_nat (length hand) <= v - 10 * Z.of_nat a.
Proof.
  intros H. revert value aces.
  induction H as [|c hand Hc _ IH]; intros value aces.
  - exists value, aces. cbn. split; [reflexivity|lia].
  - rewrite hand_sum_cons.
    destruct (valid_card_points c Hc) as (n & k & -> & Hn).
    simpl_bind.
    destruct (IH (value + n) (k + aces)%nat) as (v & a & -> & Hv).
    exists v, a. split; [reflexivity|]. cbn [length]. lia.
Qed.

Lemma hand_value_valid hand :
  Forall valid_card hand ->
  exists v, hand_value hand = Ok v /\ Z.of_nat (length hand) <= v.
Proof.
  intros H. unfold hand_value.
  destruct (hand_sum_valid hand 0 0%nat H) as (v & a & -> & Hv).
  simpl_bind.
  eexists; split; [reflexivity|].
  pose proof (soften_lower v a). lia.
Qed.

(** ** The dealer's loop *)

Lemma dealer_loop_enough_fuel fuel g :
  (length (deck g) < fuel)%nat -> exists r, dealer_loop fuel g = Some r.
Proof.
  revert g. induction fuel as [|fuel IH]; intros g Hlen; [lia|].
  cbn [dealer_loop].
  destruct (hand_value (dealer_hand g)) as [v|e]; [|eauto].
  destruct (v <? 17); [|eauto].
  destruct (deal_card g) as [[c g1]|e] eqn:E; [|eauto].
  apply IH. cbn. apply deal_card_Ok in E as (Hd & _ & _).
  rewrite Hd, length_app in Hlen. cbn in Hlen. lia.
Qed.

Lemma dealer_loop_Ok fuel g g' :
  dealer_loop fuel g = Some (Ok g') ->
  exists drawn v,
    deck g = deck g' ++ rev drawn /\
    dealer_hand g' = dealer_hand g ++ drawn /\
    player_hand g' = player_hand g /\
    hand_value (dealer_hand g') = Ok v /\ 17 <= v /\
    (forall n, (n < length drawn)%nat ->
       exists w, hand_value (dealer_hand g ++ take n drawn) = Ok w /\ w < 17).
Proof.
  revert g. induction fuel as [|fuel IH]; intros g; [discriminate|].
  cbn [dealer_loop].
  destruct (hand_value (dealer_hand g)) as [v|e] eqn:Ev; [|discriminate].
  destruct (v <? 17) eqn:Hv.
  - destruct (deal_card g) as [[c g1]|e] eqn:E; [|discriminate].
    intros H. apply IH in H as (drawn & w & Hd & Hh & Hp & Hw & H17 & Hpre).
    cbn [deck dealer_hand player_hand] in Hd, Hh, Hp, Hpre.
    apply deal_card_Ok in E as (Ed & Ep & Eh).
    rewrite Eh in Hh, Hpre. rewrite <- app_assoc in Hh. cbn [app] in Hh.
    exists (c :: drawn), w. cbn [rev length].
    split; [rewrite Ed, Hd, <- app_assoc; reflexivity|].
    split; [exact Hh|].
    split; [congruence|].
    split; [exact Hw|].
    split; [exact H17|].
    intros [|n] Hn.
    + cbn [take]. rewrite app_nil_r. exists v. split; [exact Ev|lia].
    + cbn [take]. destruct (Hpre n) as (w' & Hw' & Hlt); [lia|].
      exists w'. rewrite <- app_assoc in Hw'. auto.
  - intros [= <-]. exists [], v. cbn. rewrite !app_nil_r.
    repeat split; try assumption; [lia|]. intros n Hn. lia.
Qed.

Lemma dealer_loop_valid fuel g :
  Forall valid_card (dealer_hand g ++ deck g) ->
  (17 <= length (dealer_hand g ++ deck g))%nat ->
  (length (deck g) < fuel)%nat ->
  exists g', dealer_loop fuel g = Some (Ok g').
Proof.
  revert g. induction fuel as [|fuel IH]; intros g Hvalid H17 Hfuel; [lia|].
  cbn [dealer_loop].
  pose proof Hvalid as Hv. apply Forall_app in Hv as [Hvh Hvd].
  destruct (hand_value_valid _ Hvh) as (v & -> & Hlen).
  destruct (v <? 17) eqn:Hlt; [|eauto].
  destruct g as [d p h]. cbn [deck dealer_hand player_hand] in *.
  destruct d as [|c d _] using rev_ind.
  { rewrite app_nil_r in H17. lia. }
  rewrite deal_card_snoc. cbn [deck dealer_hand player_hand].
  assert (Hperm : Permutation ((h ++ [c]) ++ d) (h ++ d ++ [c])).
  { rewrite <- app_assoc. apply Permutation_app_head.
    apply (Permutation_cons_append d c). }
  apply IH; cbn [deck dealer_hand player_hand].
  - rewrite Hperm. exact Hvalid.
  - rewrite (Permutation_length Hperm). exact H17.
  - rewrite length_app in Hfuel. cbn in Hfuel. lia.
Qed.

End Dealer.

Section Rounds.
Import Blackjack.

(** ** [dealer_action] *)

Lemma dealer_action_Ok g g' :
  dealer_action g = Ok g' ->
  dealer_loop (S (length (deck g))) g = Some (Ok g').
Proof.
  unfold dealer_action.
  destruct (dealer_loop_enough_fuel (S (length (deck g))) g) as [r ->]; [lia|].
  congruence.
Qed.

(** C9 (as stated, refuted): a draw of the dealer need not increase the
    value of the hand.  With a soft 16 the dealer draws a king and still
    has 16. *)
Lemma dealer_draw_counterexample :
  hand_value (dealer_hand soft16_game) = Ok 16 /\
  deal_card soft16_game
  = Ok (mkCard "K" "clubs",
        mkGame [mkCard "2" "diamonds"] (player_hand soft16_game)
               (dealer_hand soft16_game)) /\
  hand_value (dealer_hand soft16_game ++ [mkCard "K" "clubs"]) = Ok 16.
Proof. repeat split. Qed.

(** C9 (amended): the loop of [dealer_action] always ends within
    [length deck + 1] passes, each draw taking one card off the deck.
    When it returns, the dealer drew exactly while the value was below
    17, holds 17 or more, and the player's hand is untouched.  With 17
    well-formed cards or more in dealer hand and deck together, it does
    return. *)
Theorem dealer_action_terminates (g : Game) :
  (exists r, dealer_loop (S (length (deck g))) g = Some r) /\
  (forall g', dealer_action g = Ok g' ->
     exists drawn v,
       deck g = deck g' ++ rev drawn /\
       dealer_hand g' = dealer_hand g ++ drawn /\
       player_hand g' = player_hand g /\
       hand_value (dealer_hand g') = Ok v /\ 17 <= v /\
       (forall n, (n < length drawn)%nat ->
          exists w, hand_value (dealer_hand g ++ take n drawn) = Ok w /\ w < 17)) /\
  (Forall valid_card (dealer_hand g ++ deck g) ->
   (17 <= length (dealer_hand g ++ deck g))%nat ->
   exists g', dealer_action g = Ok g').
Proof.
  split; [apply dealer_loop_enough_fuel; lia|].
  split.
  - intros g' H. apply dealer_action_Ok in H. eauto using dealer_loop_Ok.
  - intros Hv H17.
    destruct (dealer_loop_valid (S (length (deck g))) g Hv H17) as [g' H];
      [lia|].
    exists g'. unfold dealer_action. rewrite H. reflexivity.
Qed.

Lemma dealer_action_terminates_witness :
  exists g', dealer_action (new_game generate_deck) = Ok g'.
Proof.
  apply (dealer_action_terminates (new_game generate_deck)).
  - apply (bool_decide_unpack _). vm_compute. reflexivity.
  - vm_compute. lia.
Defined.

End Rounds.

Section Results.
Import Blackjack.

(** ** [game_result] *)

(** C3: [game_result] runs the dealer's draws and then compares the two
    final values: the player above 21 loses; otherwise the player wins
    when the dealer is above 21 or below the player; equal values draw;
    anything else is a loss.  So 22 loses against any dealer, 20 beats
    19, and 19 against 19 is a draw. *)
Theorem game_result_spec (g g' : Game) (p d : Z) :
  dealer_action g = Ok g' ->
  hand_value (player_hand g') = Ok p ->
  hand_value (dealer_hand g') = Ok d ->
  exists r : string,
    game_result g = Ok (r, g') /\
    (21 < p -> r = "loss"%string) /\
    (p <= 21 -> 21 < d \/ d < p -> r = "win"%string) /\
    (p <= 21 -> d <= 21 -> p = d -> r = "draw"%string) /\
    (p <= 21 -> d <= 21 -> p < d -> r = "loss"%string) /\
    (p = 22 -> r = "loss"%string) /\
    (p = 20 -> d = 19 -> r = "win"%string) /\
    (p = 19 -> d = 19 -> r = "draw"%string).
Proof.
  intros Hd Hp Hv. unfold game_result. rewrite Hd. simpl_bind.
  rewrite Hp. simpl_bind. rewrite Hv. simpl_bind.
  eexists. split; [reflexivity|]. unfold compare_values.
  destruct (21 <? p) eqn:E1, (21 <? d) eqn:E2, (d <? p) eqn:E3,
           (p =? d) eqn:E4; cbn [orb];
    repeat split; intros; try reflexivity; lia.
Qed.

Lemma game_result_spec_witness :
  exists r : string,
    game_result twenty_game = Ok (r, twenty_game) /\ r = "win"%string.
Proof.
  destruct (game_result_spec twenty_game twenty_game 20 19)
    as (r & Hr & _ & _ & _ & _ & _ & Hwin & _);
    [reflexivity | reflexivity | reflexivity |].
  exists r. split; [exact Hr|]. apply Hwin; reflexivity.
Defined.

(** The dealer's failure is the failure of [game_result]. *)
Lemma game_result_dealer_error g e :
  dealer_action g = Raise e -> game_result g = Raise e.
Proof. intros H. unfold game_result. rewrite H. reflexivity. Qed.

(** ** [player_action] *)

(** C5 (as stated, refuted): with a natural 21 in hand, [stay] returns
    [player_blackjack], not [continue]. *)
Lemma stay_status_counterexample :
  player_action natural_game "stay"
  = Ok ("player_blackjack"%string, natural_game).
Proof. reflexivity. Qed.

(** C5 (amended): [stay] leaves deck and hands as they are and returns
    the status of the player's hand: [continue] below 21,
    [player_blackjack] at 21, [player_bust] above. *)
Theorem stay_no_mutation (g : Game) (v : Z) :
  hand_value (player_hand g) = Ok v ->
  exists status : string,
    player_action g "stay" = Ok (status, g) /\
    (v < 21 -> status = "continue"%string) /\
    (v = 21 -> status = "player_blackjack"%string) /\
    (21 < v -> status = "player_bust"%string).
Proof.
  intros Hv. unfold player_action. cbn [bool_decide decide_rel].
  rewrite bool_decide_eq_false_2 by discriminate.
  simpl_bind. unfold game_status. rewrite Hv.
  simpl_bind.
  destruct (21 <? v) eqn:E1, (v =? 21) eqn:E2;
    eexists; (split; [reflexivity|]); repeat split; intros;
    try reflexivity; lia.
Qed.

Lemma stay_no_mutation_witness :
  exists status : string,
    player_action twenty_game "stay" = Ok (status, twenty_game) /\
    status = "continue"%string.
Proof.
  destruct (stay_no_mutation twenty_game 20) as (s & Hs & Hc & _);
    [reflexivity|].
  exists s. split; [exact Hs|]. apply Hc. lia.
Defined.

(** C6 (as stated, refuted): an action that is neither [hit] nor [stay]
    raises nothing; the call returns the status as for a valid move. *)
Lemma invalid_action_counterexample :
  player_action twenty_game "double"
  = Ok ("continue"%string, twenty_game).
Proof. reflexivity. Qed.

(** C6 (amended): every action other than [hit], and so every action
    outside [hit] and [stay], is handled exactly as [stay]: no error is
    raised for it, deck and hands stay as they are, and the status of
    the player's hand is returned. *)
Theorem other_action_as_stay (g : Game) (action : string) :
  action ≠ "hit"%string ->
  player_action g action = player_action g "stay" /\
  player_action g action = (status ← game_status g; Ok (status, g)).
Proof.
  intros Hne. unfold player_action.
  rewrite (bool_decide_eq_false_2 _ Hne).
  rewrite bool_decide_eq_false_2 by discriminate.
  split; reflexivity.
Qed.

Lemma other_action_as_stay_witness :
  player_action twenty_game "double" = player_action twenty_game "stay".
Proof.
  apply (other_action_as_stay twenty_game "double"). discriminate.
Defined.

End Results.

(** * Properties of the agents *)

Section Training.
Import Blackjack.

(** ** The progress step of [train] *)

Lemma start_game_snoc4 d c1 c2 c3 c4 p h :
  start_game (mkGame (d ++ [c4; c3; c2; c1]) p h)
  = Ok (mkGame d [c1; c2] [c3; c4]).
Proof.
  unfold start_game.
  change (d ++ [c4; c3; c2; c1]) with (d ++ [c4] ++ [c3] ++ [c2] ++ [c1]).
  rewrite !app_assoc, deal_card_snoc. simpl_bind.
  rewrite deal_card_snoc. cbn [mbind result_bind deck dealer_hand].
  rewrite deal_card_snoc. simpl_bind.
  rewrite deal_card_snoc. reflexivity.
Qed.

Lemma start_game_Ok g :
  (4 <= length (deck g))%nat -> exists g', start_game g = Ok g'.
Proof.
  destruct g as [d p h]. cbn [deck].
  destruct d as [|c1 d _] using rev_ind; [cbn; lia|].
  destruct d as [|c2 d _] using rev_ind; [cbn; lia|].
  destruct d as [|c3 d _] using rev_ind; [cbn; lia|].
  destruct d as [|c4 d _] using rev_ind; [cbn; lia|].
  intros _. rewrite <- !app_assoc. cbn [app].
  rewrite start_game_snoc4. eauto.
Qed.

Lemma py_round_percent_small episodes :
  1 <= episodes <= 50 -> py_round_percent episodes = 0.
Proof.
  intros H. unfold py_round_percent.
  rewrite (Z.div_small episodes 100) by lia.
  rewrite (Z.mod_small episodes 100) by lia.
  destruct (episodes <? 50) eqn:E1; [reflexivity|].
  destruct (50 <? episodes) eqn:E2; [lia|]. reflexivity.
Qed.

(** From 51 episodes on the progress step is positive. *)
Lemma py_round_percent_51 : py_round_percent 51 = 1.
Proof. reflexivity. Qed.

Lemma py_range_pos n : 1 <= n -> exists rest, py_range n = 0 :: rest.
Proof.
  intros H. unfold py_range.
  destruct (Z.to_nat n) as [|k] eqn:E; [lia|].
  cbn. eauto.
Qed.

Variable R : Type.
Variable of_int : Z -> R.
Variables radd rsub rmul rmax : R -> R -> R.
Variable true_div : Z -> Z -> R.
Variable rltb : R -> R -> bool.

(** C10: with 1 to 50 episodes the progress step
    [round(episodes / 100)] is 0, and [train] of either agent raises
    [ZeroDivisionError] at [ep % one_percent] in its first pass, before
    any episode is played. *)
Theorem train_few_episodes_raises (episodes : Z) :
  1 <= episodes <= 50 ->
  py_round_percent episodes = 0 /\
  (forall shuffles first_hits ag,
     Permutation generate_deck (shuffles 0) ->
     MonteCarlo.train R true_div rltb shuffles first_hits ag episodes
     = Raise ZeroDivisionError) /\
  (forall shuffles draws ag,
     Permutation generate_deck (shuffles 0) ->
     QLearning.train R of_int radd rsub rmul rmax rltb shuffles draws ag
       episodes
     = Raise ZeroDivisionError).
Proof.
  intros H. pose proof (py_round_percent_small episodes H) as Hz.
  destruct (py_range_pos episodes) as [rest Hr]; [lia|].
  split; [exact Hz|].
  split; intros shuffles rnd ag Hperm.
  - unfold MonteCarlo.train. rewrite Hr, Hz. cbn [for_each].
    unfold MonteCarlo.train_episode.
    destruct (start_game_Ok (new_game (shuffles 0))) as [g ->].
    { cbn [new_game deck]. rewrite <- (Permutation_length Hperm). cbn. lia. }
    reflexivity.
  - unfold QLearning.train. rewrite Hr, Hz. cbn [for_each].
    unfold QLearning.train_episode.
    destruct (start_game_Ok (new_game (shuffles 0))) as [g ->].
    { cbn [new_game deck]. rewrite <- (Permutation_length Hperm). cbn. lia. }
    reflexivity.
Qed.

End Training.

Lemma train_few_episodes_raises_witness :
  MonteCarlo.train Z Z.div Z.ltb (fun _ => Blackjack.generate_deck)
    (fun _ => true) (MonteCarlo.init Z) 50
  = Raise ZeroDivisionError.
Proof.
  apply (train_few_episodes_raises Z (fun z => z) Z.add Z.sub Z.mul Z.max Z.div
           Z.ltb 50); [lia | reflexivity].
Defined.

(** ** The update of the Q-Learning agent *)

Section QUpdate.
Import QLearning.

Variable R : Type.
Variable of_int : Z -> R.
Variables radd rsub rmul rmax : R -> R -> R.

Lemma axis_index_in_range n i : 0 <= i < n -> axis_index n i = Ok i.
Proof.
  intros H. unfold axis_index.
  destruct (0 <=? i) eqn:E1, (i <? n) eqn:E2; try reflexivity; lia.
Qed.

Lemma offset_in_range p d u a :
  0 <= p < 33 -> 0 <= d < 12 -> 0 <= u < 2 -> 0 <= a < 2 ->
  offset p d u a = Ok (Z.to_nat (((p * 12 + d) * 2 + u) * 2 + a)).
Proof.
  intros Hp Hd Hu Ha. unfold offset.
  rewrite !axis_index_in_range by assumption. reflexivity.
Qed.

Lemma Q_get_in_range (q : list R) p d u a :
  length q = 1584%nat ->
  0 <= p < 33 -> 0 <= d < 12 -> 0 <= u < 2 -> 0 <= a < 2 ->
  exists x, q !! Z.to_nat (((p * 12 + d) * 2 + u) * 2 + a) = Some x /\
            Q_get R q p d u a = Ok x.
Proof.
  intros Hlen Hp Hd Hu Ha. unfold Q_get.
  rewrite offset_in_range by assumption. simpl_bind.
  destruct (lookup_lt_is_Some_2 q (Z.to_nat (((p * 12 + d) * 2 + u) * 2 + a)))
    as [x Hx]; [lia|].
  exists x. rewrite Hx. auto.
Qed.

(** C1: [update] replaces [Q[state, action]] by
    [old + alpha * (reward + gamma * max(Q[next, hit], Q[next, stay]) - old)],
    both reads being made before the write, and changes no other entry
    of the table and no parameter of the agent. *)
Theorem update_td_rule (ag : Agent R) (p d u : Z) (action : string)
    (reward : Z) (p' d' u' : Z) :
  length (Q R ag) = 1584%nat ->
  0 <= p < 33 -> 0 <= d < 12 -> 0 <= u < 2 ->
  0 <= p' < 33 -> 0 <= d' < 12 -> 0 <= u' < 2 ->
  let a := if bool_decide (action = "hit"%string) then 0 else 1 in
  exists old q0 q1 ag',
    Q_get R (Q R ag) p d u a = Ok old /\
    Q_get R (Q R ag) p' d' u' 0 = Ok q0 /\
    Q_get R (Q R ag) p' d' u' 1 = Ok q1 /\
    update R of_int radd rsub rmul rmax ag p d u action reward p' d' u'
    = Ok ag' /\
    Q_get R (Q R ag') p d u a
    = Ok (radd old
            (rmul (alpha R ag)
               (rsub (radd (of_int reward) (rmul (gamma R ag) (rmax q0 q1)))
                  old))) /\
    (forall p2 d2 u2 a2,
       0 <= p2 < 33 -> 0 <= d2 < 12 -> 0 <= u2 < 2 -> 0 <= a2 < 2 ->
       (p2, d2, u2, a2) ≠ (p, d, u, a) ->
       Q_get R (Q R ag') p2 d2 u2 a2 = Q_get R (Q R ag) p2 d2 u2 a2) /\
    alpha R ag' = alpha R ag /\ gamma R ag' = gamma R ag /\
    epsilon R ag' = epsilon R ag /\ length (Q R ag') = 1584%nat.
Proof.
  intros Hlen Hp Hd Hu Hp' Hd' Hu' a.
  assert (Ha : 0 <= a < 2) by (subst a; case_bool_decide; lia).
  destruct (Q_get_in_range (Q R ag) p d u a) as (old & Hlo & Hold);
    try assumption.
  destruct (Q_get_in_range (Q R ag) p' d' u' 0) as (q0 & _ & Hq0);
    try assumption; [lia|].
  destruct (Q_get_in_range (Q R ag) p' d' u' 1) as (q1 & _ & Hq1);
    try assumption; [lia|].
  eexists old, q0, q1, _.
  split; [exact Hold|]. split; [exact Hq0|]. split; [exact Hq1|].
  split.
  { unfold update, Q_max. fold a. rewrite Hold, Hq0, Hq1.
    simpl_bind. unfold Q_set.
    rewrite offset_in_range by assumption. reflexivity. }
  cbn [Q alpha gamma epsilon]. unfold td_target.
  split.
  { unfold Q_get. rewrite offset_in_range by assumption.
    simpl_bind.
    rewrite list_lookup_insert_eq by lia. reflexivity. }
  split.
  { intros p2 d2 u2 a2 Hp2 Hd2 Hu2 Ha2 Hne. unfold Q_get.
    rewrite offset_in_range by assumption. simpl_bind.
    rewrite list_lookup_insert_ne; [reflexivity|].
    intros Heq. apply Hne.
    assert (((p * 12 + d) * 2 + u) * 2 + a
            = ((p2 * 12 + d2) * 2 + u2) * 2 + a2) by lia.
    assert (a = a2) by lia. assert (u = u2) by lia.
    assert (d = d2) by lia. assert (p = p2) by lia. congruence. }
  rewrite length_insert. auto.
Qed.

End QUpdate.

Lemma update_td_rule_witness :
  exists ag',
    QLearning.update Z (fun z => z) Z.add Z.sub Z.mul Z.max
      (QLearning.init Z 0 1 1 0) 20 10 0 "stay" 1 20 10 0 = Ok ag' /\
    QLearning.Q_get Z (QLearning.Q Z ag') 20 10 0 1 = Ok 1.
Proof.
  destruct (update_td_rule Z (fun z => z) Z.add Z.sub Z.mul Z.max
              (QLearning.init Z 0 1 1 0) 20 10 0 "stay" 1 20 10 0)
    as (old & q0 & q1 & ag' & Hold & Hq0 & Hq1 & Hup & Hnew & _);
    [reflexivity | lia | lia | lia | lia | lia | lia |].
  exists ag'. split; [exact Hup|].
  rewrite bool_decide_eq_false_2 in Hnew by discriminate.
  rewrite Hnew. vm_compute in Hold, Hq0, Hq1.
  injection Hold as <-. injection Hq0 as <-. injection Hq1 as <-.
  reflexivity.
Defined.

(** ** The updates of the Monte Carlo agent *)

Section MCUpdate.
Import MonteCarlo.

Variable R : Type.
Variable true_div : Z -> Z -> R.
Variable rltb : R -> R -> bool.

(** [<] on the values of the table is a strict weak order. *)
Hypothesis rltb_irrefl : forall x, rltb x x = false.
Hypothesis rltb_trans :
  forall x y z, rltb x y = true -> rltb y z = true -> rltb x z = true.
Hypothesis rltb_cotrans :
  forall x y z, rltb x z = true -> rltb x y = true \/ rltb y z = true.

Abbreviation ActionValues := (list (string * R)).

(** ** Inner dictionaries *)

Lemma dict_get_elem (d : ActionValues) k v :
  dict_get R d k = Some v -> (k, v) ∈ d.
Proof.
  induction d as [|[k' v'] d IH]; cbn; [discriminate|].
  case_decide as E.
  - intros [= <-]. subst. left.
  - intros H. right. auto.
Qed.

Lemma elem_dict_get (d : ActionValues) k v :
  NoDup d.*1 -> (k, v) ∈ d -> dict_get R d k = Some v.
Proof.
  induction d as [|[k' v'] d IH]; cbn; intros Hnd Hin.
  - inversion Hin.
  - apply NoDup_cons in Hnd as [Hk Hnd].
    apply elem_of_cons in Hin as [[= <- <-]|Hin].
    + rewrite decide_True by reflexivity. reflexivity.
    + case_decide as E; [|auto]. subst k'. exfalso. apply Hk.
      apply list_elem_of_fmap. exists (k, v). auto.
Qed.

Lemma dict_get_set_eq (d : ActionValues) k v :
  dict_get R (dict_set R d k v) k = Some v.
Proof.
  induction d as [|[k' v'] d IH]; cbn.
  - rewrite decide_True by reflexivity. reflexivity.
  - case_decide as E; cbn.
    + rewrite decide_True by reflexivity. reflexivity.
    + rewrite decide_False by assumption. exact IH.
Qed.

Lemma dict_get_set_ne (d : ActionValues) k v k' :
  k ≠ k' -> dict_get R (dict_set R d k v) k' = dict_get R d k'.
Proof.
  intros Hne. induction d as [|[k0 v0] d IH]; cbn.
  - rewrite decide_False by assumption. reflexivity.
  - case_decide as E; cbn.
    + subst k0. rewrite !decide_False by assumption. reflexivity.
    + case_decide; [reflexivity|exact IH].
Qed.

Lemma dict_set_keys (d : ActionValues) k v k' :
  k' ∈ (dict_set R d k v).*1 <-> k' = k \/ k' ∈ d.*1.
Proof.
  induction d as [|[k0 v0] d IH]; cbn.
  - rewrite list_elem_of_singleton, elem_of_nil. tauto.
  - case_decide as E; cbn; rewrite !elem_of_cons.
    + subst. tauto.
    + rewrite IH. tauto.
Qed.

Lemma dict_set_NoDup (d : ActionValues) k v :
  NoDup d.*1 -> NoDup (dict_set R d k v).*1.
Proof.
  induction d as [|[k0 v0] d IH]; cbn; intros Hnd.
  - apply NoDup_singleton.
  - apply NoDup_cons in Hnd as [Hk Hnd].
    case_decide as E; cbn; apply NoDup_cons.
    + subst. auto.
    + split; [|auto]. rewrite dict_set_keys. intros [->|H]; auto.
Qed.

Lemma dict_set_not_nil (d : ActionValues) k v : dict_set R d k v ≠ [].
Proof. destruct d as [|[k0 v0] d]; cbn; [|case_decide]; discriminate. Qed.

(** ** [max] *)

Lemma max_from_spec (rest : ActionValues) (best : string * R) :
  exists vb, (max_from R rltb best rest, vb) ∈ best :: rest /\
    forall x, x ∈ best :: rest -> rltb vb x.2 = false.
Proof.
  revert best. induction rest as [|x rest IH]; intros best;
    cbn [max_from].
  - exists best.2. split; [destruct best; left|].
    intros y Hy. apply list_elem_of_singleton in Hy as ->. apply rltb_irrefl.
  - destruct (rltb best.2 x.2) eqn:E.
    + destruct (IH x) as (vb & Hin & Hmax). exists vb.
      split; [right; exact Hin|].
      intros y Hy. apply elem_of_cons in Hy as [->|Hy]; [|auto].
      destruct (rltb vb best.2) eqn:E2; [|reflexivity].
      rewrite <- (Hmax x) by left. symmetry. eauto using rltb_trans.
    + destruct (IH best) as (vb & Hin & Hmax). exists vb.
      split.
      { apply elem_of_cons in Hin as [Hin|Hin];
        [rewrite Hin; left|right; right; exact Hin]. }
      intros y Hy. apply elem_of_cons in Hy as [->|Hy]; [apply Hmax; left|].
      apply elem_of_cons in Hy as [->|Hy]; [|apply Hmax; right; auto].
      destruct (rltb vb x.2) eqn:E2; [|reflexivity].
      destruct (rltb_cotrans _ best.2 _ E2) as [H|H]; [|congruence].
      rewrite <- (Hmax best) by left. symmetry. exact H.
Qed.

Lemma py_max_key_spec (d : ActionValues) :
  NoDup d.*1 -> d ≠ [] ->
  exists best, py_max_key R rltb d = Ok best /\ is_max_key R rltb d best.
Proof.
  intros Hnd Hne. destruct d as [|x rest]; [congruence|].
  cbn [py_max_key]. eexists. split; [reflexivity|].
  destruct (max_from_spec rest x) as (vb & Hin & Hmax).
  exists vb. split; [apply elem_dict_get; assumption|].
  intros a v Ha. apply dict_get_elem in Ha. apply (Hmax (a, v) Ha).
Qed.


(** ** One visit *)

Lemma for_each_cons {S X} (body : S -> X -> result S) x xs s :
  for_each body (x :: xs) s = (s' ← body s x; for_each body xs s').
Proof. reflexivity. Qed.

Lemma visit_spec (G : Z) (ag : Agent R) (x : State * string) :
  keys_unique R ag ->
  exists ag1,
    visit R true_div rltb G ag x = Ok ag1 /\
    keys_unique R ag1 /\
    returns R ag1 = <[x := default [] (returns R ag !! x) ++ [G]]> (returns R ag) /\
    settled R true_div rltb ag1 x.1 x.2 /\
    (forall s a, (s, a) ≠ x ->
       settled R true_div rltb ag s a -> settled R true_div rltb ag1 s a).
Proof.
  intros Hwf. destruct x as [s a]. unfold visit.
  set (history := default [] (returns R ag !! (s, a)) ++ [G]).
  set (values := dict_set R (default [] (Q R ag !! s)) a
                   (mean R true_div history)).
  assert (Hnd : NoDup values.*1).
  { apply dict_set_NoDup. destruct (Q R ag !! s) as [v|] eqn:E; cbn.
    - exact (Hwf s v E).
    - apply NoDup_nil_2. }
  destruct (py_max_key_spec values Hnd (dict_set_not_nil _ _ _))
    as (best & -> & Hbest).
  simpl_bind. eexists. split; [reflexivity|].
  split.
  { intros s' v'. cbn [Q]. rewrite lookup_insert. case_decide.
    - intros [= <-]. exact Hnd.
    - apply Hwf. }
  split; [reflexivity|].
  split.
  { exists history, values, best. cbn [fst snd Q returns policy].
    rewrite !lookup_insert_eq. repeat split; try assumption.
    apply dict_get_set_eq. }
  intros s' a' Hne (h & v & b & Hr & Hq & Hg & Hp & Hb).
  unfold settled. cbn [Q returns policy].
  rewrite (lookup_insert_ne (returns R ag)) by congruence.
  destruct (decide (s = s')) as [<-|Hs].
  - exists h, values, best. rewrite !lookup_insert_eq.
    repeat split; try assumption.
    subst values. rewrite Hq. cbn [default].
    rewrite dict_get_set_ne by congruence. exact Hg.
  - exists h, v, b. rewrite !lookup_insert_ne by assumption. auto.
Qed.


(** ** A whole episode *)

Lemma update_episode_settles (G : Z) (episode : list (State * string))
    (ag : Agent R) :
  keys_unique R ag ->
  exists ag',
    for_each (visit R true_div rltb G) episode ag = Ok ag' /\
    keys_unique R ag' /\
    (forall s a, (s, a) ∈ episode \/ settled R true_div rltb ag s a ->
       settled R true_div rltb ag' s a) /\
    (forall k,
       default [] (returns R ag' !! k)
       = default [] (returns R ag !! k)
         ++ replicate (length (filter (fun y => y = k) episode)) G).
Proof.
  revert ag. induction episode as [|x xs IH]; intros ag Hwf.
  - exists ag. cbn. split; [reflexivity|]. split; [exact Hwf|].
    split.
    + intros s a [H|H]; [inversion H|exact H].
    + intros k. rewrite app_nil_r. reflexivity.
  - rewrite for_each_cons.
    destruct (visit_spec G ag x Hwf) as (ag1 & -> & Hwf1 & Hret & Hset & Hkeep).
    simpl_bind.
    destruct (IH ag1 Hwf1) as (ag' & -> & Hwf' & Hall & Hhist).
    exists ag'. split; [reflexivity|]. split; [exact Hwf'|].
    split.
    + intros s a H. apply Hall.
      destruct (decide ((s, a) = x)) as [<-|Hne]; [right; exact Hset|].
      destruct H as [H|H].
      * apply elem_of_cons in H as [H|H]; [contradiction|left; exact H].
      * right. apply Hkeep; assumption.
    + intros k. rewrite Hhist, Hret, filter_cons.
      destruct (decide (x = k)) as [->|Hne].
      * rewrite lookup_insert_eq. cbn.
        rewrite <- app_assoc. reflexivity.
      * rewrite lookup_insert_ne by assumption. reflexivity.
Qed.

(** C2: the signal of an episode is +1 for [win] and -1 for every other
    result.  After the updates of [train] for the episode, every pair
    (state, action) of the episode has the signal appended to its return
    history once per visit, [Q[state][action]] is the mean of that
    history, and the policy of the state is an action of [Q[state]]
    that no other action of [Q[state]] exceeds. *)
Theorem update_episode_spec (ag : Agent R) (episode : list (State * string))
    (res : string) :
  keys_unique R ag ->
  (res = "win"%string -> terminal_signal res = 1) /\
  (res ≠ "win"%string -> terminal_signal res = -1) /\
  exists ag',
    update_episode R true_div rltb ag episode res = Ok ag' /\
    forall s a, (s, a) ∈ episode ->
      exists history values best vbest,
        returns R ag' !! (s, a) = Some history /\
        history
        = default [] (returns R ag !! (s, a))
          ++ replicate (length (filter (fun y => y = (s, a)) episode))
               (terminal_signal res) /\
        (0 < length (filter (fun y => y = (s, a)) episode))%nat /\
        Q R ag' !! s = Some values /\
        dict_get R values a
        = Some (true_div (py_sum history) (Z.of_nat (length history))) /\
        policy R ag' !! s = Some (Some best) /\
        dict_get R values best = Some vbest /\
        (forall a' v', dict_get R values a' = Some v' -> rltb vbest v' = false).
Proof.
  intros Hwf.
  split; [intros ->; reflexivity|].
  split.
  { intros Hne. unfold terminal_signal.
    rewrite bool_decide_eq_false_2 by assumption. reflexivity. }
  unfold update_episode.
  destruct (update_episode_settles (terminal_signal res) episode ag Hwf)
    as (ag' & Hrun & _ & Hall & Hhist).
  exists ag'. split; [exact Hrun|].
  intros s a Hin.
  destruct (Hall s a (or_introl Hin))
    as (h & v & b & Hr & Hq & Hg & Hp & vb & Hb & Hmax).
  exists h, v, b, vb.
  specialize (Hhist (s, a)). rewrite Hr in Hhist. cbn [default] in Hhist.
  repeat split; try assumption.
  apply list_elem_of_In in Hin.
  destruct (filter (fun y => y = (s, a)) episode) as [|y l] eqn:E;
    [|cbn; lia].
  exfalso. apply list_elem_of_In in Hin.
  assert (Hf : (s, a) ∈ filter (fun y => y = (s, a)) episode)
    by (apply list_elem_of_filter; auto).
  rewrite E in Hf. inversion Hf.
Qed.

End MCUpdate.

Lemma update_episode_spec_witness :
  exists ag',
    MonteCarlo.update_episode Z Z.div Z.ltb (MonteCarlo.init Z)
      [((16, "K"%string, true), "hit"%string);
       ((16, "K"%string, true), "hit"%string)] "draw"
    = Ok ag' /\
    MonteCarlo.returns Z ag' !! ((16, "K"%string, true), "hit"%string)
    = Some [-1; -1].
Proof.
  destruct (update_episode_spec Z Z.div Z.ltb Z.ltb_irrefl
              (fun x y z Hxy Hyz =>
                 proj2 (Z.ltb_lt x z)
                   (Z.lt_trans x y z (proj1 (Z.ltb_lt x y) Hxy)
                      (proj1 (Z.ltb_lt y z) Hyz)))
              (fun x y z Hxz =>
                 match Z_lt_dec x y with
                 | left H => or_introl (proj2 (Z.ltb_lt x y) H)
                 | right H =>
                     or_intror
                       (proj2 (Z.ltb_lt y z)
                          (Z.le_lt_trans y x z (proj1 (Z.nlt_ge x y) H)
                             (proj1 (Z.ltb_lt x z) Hxz)))
                 end)
              (MonteCarlo.init Z)
              [((16, "K"%string, true), "hit"%string);
               ((16, "K"%string, true), "hit"%string)] "draw")
    as (_ & _ & ag' & Hrun & Hall).
  { intros s v H. cbn [MonteCarlo.init MonteCarlo.Q] in H.
    rewrite lookup_empty in H. discriminate. }
  exists ag'. split; [exact Hrun|].
  destruct (Hall (16, "K"%string, true) "hit"%string)
    as (h & _ & _ & _ & Hr & Hh & _); [left|].
  rewrite Hr, Hh. reflexivity.
Defined.

(** ** The state read by the Monte Carlo agent *)

Section MCState.
Import Blackjack MonteCarlo.

(** ** [has_usable_ace] counts an ace as 10 *)

Lemma usable_ace_card c :
  valid_card c ->
  exists n,
    (if bool_decide (number c ∈ ["J"; "Q"; "K"; "A"]%string)
     then Ok 11 else py_int (number c)) = Ok n /\
    2 <= Z.min 10 n /\
    (bool_decide (number c = "A"%string) = true -> Z.min 10 n = 10).
Proof.
  destruct c as [n s]. unfold valid_card, numbers. cbn [number].
  rewrite !elem_of_cons, elem_of_nil.
  intros H. repeat (destruct H as [->|H]); try contradiction;
    vm_compute; eexists; (split; [reflexivity|]);
    (split; [intros [=]|]); try reflexivity; intros [=].
Qed.

Lemma usable_ace_loop_valid hand value ace :
  Forall valid_card hand ->
  exists v a,
    usable_ace_loop hand value ace = Ok (v, a) /\
    value + 2 * Z.of_nat (length hand) <= v /\
    (a = true -> ace = true \/ value + 8 + 2 * Z.of_nat (length hand) <= v).
Proof.
  intros H. revert value ace.
  induction H as [|c hand Hc _ IH]; intros value ace.
  - exists value, ace. cbn. split; [reflexivity|]. split; [lia|auto].
  - cbn [usable_ace_loop].
    destruct (usable_ace_card c Hc) as (n & -> & Hmin & Hace).
    simpl_bind.
    destruct (IH (value + Z.min 10 n)
                 (ace || bool_decide (number c = "A"%string)))
      as (v & a & -> & Hv & Ha).
    exists v, a. split; [reflexivity|]. cbn [length].
    split; [lia|]. intros Htrue.
    destruct (Ha Htrue) as [Hor|Hge]; [|right; lia].
    apply orb_true_iff in Hor as [Hor|Hor]; [left; exact Hor|].
    right. specialize (Hace Hor). lia.
Qed.

(** On every hand of two cards or more, [has_usable_ace] answers 0. *)
Lemma has_usable_ace_zero hand :
  Forall valid_card hand -> (2 <= length hand)%nat ->
  has_usable_ace hand = Ok 0.
Proof.
  intros Hv Hlen. unfold has_usable_ace.
  destruct (usable_ace_loop_valid hand 0 false Hv) as (v & a & -> & Hge & Ha).
  simpl_bind. destruct a; [|reflexivity].
  destruct (Ha eq_refl) as [[=]|Hv8].
  cbn [andb]. destruct (v + 10 <=? 21) eqn:E; [lia|reflexivity].
Qed.

(** C4 (the code departs from the claim): with A and 5 in hand against
    the dealer's king, the state of the specification is (16, 10, 1);
    [generate_episode] builds (16, "K", True), the rank as a string, and
    [play] reads (16, 10, 0), the ace not counted.  With A, 5 and K in
    hand the ace counts as 1 and the flag of the specification is 0, yet
    [generate_episode] still has [True]. *)
Theorem mc_state_divergence :
  spec_state soft16_player_game = Ok (16, 10, 1) /\
  episode_state soft16_player_game = Ok (16, "K"%string, true) /\
  play_state soft16_player_game = Ok (16, 10, 0) /\
  spec_state hard16_player_game = Ok (16, 10, 0) /\
  episode_state hard16_player_game = Ok (16, "K"%string, true).
Proof. repeat split. Qed.

End MCState.

(** ** The loops of the agents end *)

Section Fuel.
Import Blackjack.

Lemma player_action_hit g status g' :
  player_action g "hit" = Ok (status, g') ->
  exists c, deck g = deck g' ++ [c] /\ player_hand g' = player_hand g ++ [c]
            /\ dealer_hand g' = dealer_hand g.
Proof.
  unfold player_action. rewrite bool_decide_eq_true_2 by reflexivity.
  destruct (deal_card g) as [[c g1]|e] eqn:E; [|discriminate].
  simpl_bind.
  destruct (game_status _) as [s|e]; [|discriminate].
  simpl_bind. intros [= <- <-].
  apply deal_card_Ok in E as (Hd & Hp & Hh).
  exists c. cbn [deck player_hand dealer_hand]. rewrite Hp. auto.
Qed.

Variable R : Type.
Variable of_int : Z -> R.
Variables radd rsub rmul rmax : R -> R -> R.
Variable true_div : Z -> Z -> R.
Variable rltb : R -> R -> bool.

(** The loop of [generate_episode] never needs more passes than the
    deck has cards, plus one. *)
Lemma episode_loop_enough_fuel fuel (ag : MonteCarlo.Agent R) g action episode :
  (length (deck g) < fuel)%nat ->
  exists r, MonteCarlo.episode_loop R fuel ag g action episode = Some r.
Proof.
  revert ag g action episode.
  induction fuel as [|fuel IH]; intros ag g action episode Hlen; [lia|].
  cbn [MonteCarlo.episode_loop].
  destruct (game_status g) as [status|e]; [|eauto].
  destruct (_ && _); [|eauto].
  destruct (player_action g "hit") as [[s g']|e] eqn:E; [|eauto].
  destruct (MonteCarlo.episode_state g') as [state|e]; [|eauto].
  destruct (MonteCarlo.policy_read R ag state) as [p ag'].
  apply IH. apply player_action_hit in E as (c & Hd & _).
  rewrite Hd, length_app in Hlen. cbn in Hlen. lia.
Qed.

Lemma choose_action_cases (ag : QLearning.Agent R) p d u dr a :
  QLearning.choose_action R rltb ag p d u dr = Ok a ->
  a = "hit"%string \/ a = "stay"%string.
Proof.
  unfold QLearning.choose_action.
  destruct (rltb _ _).
  - intros [= <-]. destruct (QLearning.pick_hit R dr); auto.
  - destruct (QLearning.Q_get R _ p d u 0) as [x0|]; [|discriminate].
    destruct (QLearning.Q_get R _ p d u 1) as [x1|]; [|discriminate].
    simpl_bind. intros [= <-]. destruct (rltb x1 x0); auto.
Qed.

Lemma train_step_again (ag : QLearning.Agent R) g dealer_card dr ag' g' st :
  QLearning.train_step R of_int radd rsub rmul rmax rltb ag g dealer_card dr
  = Ok (ag', g', st, true) ->
  length (deck g) = S (length (deck g')).
Proof.
  unfold QLearning.train_step.
  destruct (hand_value (player_hand g)) as [ps|]; [|discriminate].
  cbn [mbind result_bind].
  destruct (QLearning.has_usable_ace _) as [ua|]; [|discriminate].
  cbn [mbind result_bind].
  destruct (QLearning.choose_action _ _ _ _ _ _ _) as [a|] eqn:Ea;
    [|discriminate].
  cbn [mbind result_bind].
  destruct (player_action g a) as [[status g1]|] eqn:Ep; [|discriminate].
  cbn [mbind result_bind].
  destruct (hand_value (player_hand g1)) as [nps|]; [|discriminate].
  cbn [mbind result_bind].
  destruct (QLearning.has_usable_ace (player_hand g1)) as [nua|];
    [|discriminate].
  cbn [mbind result_bind].
  match goal with |- context [mbind _ ?m] => destruct m as [ag1|] end;
    [|discriminate].
  cbn [mbind result_bind]. intros [= ? <- ? Hagain].
  apply andb_true_iff in Hagain as [Hns _].
  apply negb_true_iff, bool_decide_eq_false in Hns.
  apply choose_action_cases in Ea as [-> | ->]; [|contradiction].
  apply player_action_hit in Ep as (c & Hd & _).
  rewrite Hd, length_app. cbn. lia.
Qed.

(** Nor does the inner loop of the Q-Learning [train]. *)
Lemma train_loop_enough_fuel fuel (ag : QLearning.Agent R) g dealer_card
    draws i :
  (length (deck g) < fuel)%nat ->
  exists r,
    QLearning.train_loop R of_int radd rsub rmul rmax rltb fuel ag g
      dealer_card draws i = Some r.
Proof.
  revert ag g i.
  induction fuel as [|fuel IH]; intros ag g i Hlen; [lia|].
  cbn [QLearning.train_loop].
  destruct (QLearning.train_step _ _ _ _ _ _ _ _ _ _ _)
    as [[[[ag' g'] st] [|]]|e] eqn:E; [|eauto|eauto].
  apply IH. apply train_step_again in E. lia.
Qed.

End Fuel.

(** * Further properties of the environment *)

Section Dealing.
Import Blackjack.

(** X1: [deal_card] fails exactly on an empty deck, and then with
    [IndexError]. *)
Theorem deal_card_exhausted (g : Game) (e : exn) :
  deal_card g = Raise e <-> deck g = [] /\ e = IndexError.
Proof.
  split; [apply deal_card_error|].
  intros [Hd ->]. unfold deal_card. rewrite Hd. reflexivity.
Qed.

Lemma start_game_short g :
  (length (deck g) < 4)%nat -> start_game g = Raise IndexError.
Proof.
  destruct g as [d p h]. cbn [deck]. unfold start_game.
  destruct d as [|c1 d _] using rev_ind; [reflexivity|].
  rewrite deal_card_snoc. simpl_bind.
  destruct d as [|c2 d _] using rev_ind; [reflexivity|].
  rewrite deal_card_snoc. simpl_bind. cbn [deck dealer_hand].
  destruct d as [|c3 d _] using rev_ind; [reflexivity|].
  rewrite deal_card_snoc. simpl_bind.
  destruct d as [|c4 d _] using rev_ind; [reflexivity|].
  rewrite !length_app. cbn [length]. lia.
Qed.

Lemma deck_last4 (d : list Card) :
  (4 <= length d)%nat ->
  exists d' c1 c2 c3 c4, d = d' ++ [c4; c3; c2; c1].
Proof.
  destruct d as [|c1 d _] using rev_ind; [cbn; lia|].
  destruct d as [|c2 d _] using rev_ind; [cbn; lia|].
  destruct d as [|c3 d _] using rev_ind; [cbn; lia|].
  destruct d as [|c4 d _] using rev_ind; [cbn; lia|].
  intros _. exists d, c1, c2, c3, c4. rewrite <- !app_assoc. reflexivity.
Qed.

(** X2: [start_game] succeeds exactly when the deck has four cards or
    more.  It takes the four top cards off the deck, the first two for
    the player and the next two for the dealer, whatever the hands held
    before; on a shorter deck it raises [IndexError]. *)
Theorem start_game_deals (g g' : Game) (e : exn) :
  (start_game g = Ok g' <->
   exists c1 c2 c3 c4,
     deck g = deck g' ++ [c4; c3; c2; c1] /\
     player_hand g' = [c1; c2] /\ dealer_hand g' = [c3; c4]) /\
  (start_game g = Raise e <-> (length (deck g) < 4)%nat /\ e = IndexError).
Proof.
  destruct (le_lt_dec 4 (length (deck g))) as [Hlen|Hlen].
  - destruct (deck_last4 _ Hlen) as (d & c1 & c2 & c3 & c4 & Hd).
    destruct g as [dk p h]. cbn [deck] in *. subst dk.
    rewrite start_game_snoc4. split; split.
    + intros [= <-]. exists c1, c2, c3, c4. auto.
    + intros (a1 & a2 & a3 & a4 & Hdk & Hp & Hh).
      destruct g' as [d' p' h']. cbn [deck player_hand dealer_hand] in *.
      subst p' h'.
      change [c4; c3; c2; c1] with ([c4; c3; c2] ++ [c1]) in Hdk.
      change [a4; a3; a2; a1] with ([a4; a3; a2] ++ [a1]) in Hdk.
      rewrite !app_assoc in Hdk. apply app_inj_tail in Hdk as [Hdk <-].
      change [c4; c3; c2] with ([c4; c3] ++ [c2]) in Hdk.
      change [a4; a3; a2] with ([a4; a3] ++ [a2]) in Hdk.
      rewrite !app_assoc in Hdk. apply app_inj_tail in Hdk as [Hdk <-].
      change [c4; c3] with ([c4] ++ [c3]) in Hdk.
      change [a4; a3] with ([a4] ++ [a3]) in Hdk.
      rewrite !app_assoc in Hdk. apply app_inj_tail in Hdk as [Hdk <-].
      apply app_inj_tail in Hdk as [<- <-]. reflexivity.
    + discriminate.
    + intros [Hlt _]. lia.
  - rewrite (start_game_short g Hlen). split; split.
    + discriminate.
    + intros (c1 & c2 & c3 & c4 & Hdk & _).
      rewrite Hdk, length_app in Hlen. cbn [length] in Hlen. lia.
    + intros [= <-]. auto.
    + intros [_ ->]. reflexivity.
Qed.

End Dealing.

Section HandValues.
Import Blackjack.

(** ** The softening loop *)

Lemma soften_spec value aces :
  (snd (soften value aces) <= aces)%nat /\
  fst (soften value aces)
  = value - 10 * Z.of_nat (aces - snd (soften value aces)) /\
  ((0 < snd (soften value aces))%nat -> fst (soften value aces) <= 21) /\
  ((snd (soften value aces) < aces)%nat -> 11 < fst (soften value aces)).
Proof.
  revert value. induction aces as [|k IH]; intros value; cbn [soften].
  - cbn. repeat split; lia.
  - destruct (21 <? value) eqn:E.
    + destruct (IH (value - 10)) as (H1 & H2 & H3 & H4).
      split; [lia|]. split; [|split].
      * rewrite H2. replace (S k - _)%nat with (S (k - (soften (value - 10) k).2))
          by lia. lia.
      * exact H3.
      * intros _. destruct (decide ((soften (value - 10) k).2 < k)%nat) as [Hlt|Hge].
        -- auto.
        -- rewrite H2. replace (k - _)%nat with 0%nat by lia. lia.
    + cbn [fst snd]. repeat split; lia.
Qed.

(** X3: [hand_value] counts as many aces as 1 as it takes, and no more.
    With [raw] the total with every ace as 11, the value is
    [raw - 10 * j0] for some number [j0] of aces; whenever counting [j]
    aces as 1 gives a total of 21 or less, the value is 21 or less too
    and at least that total. *)
Theorem hand_value_best (hand : list Card) (raw : Z) (aces : nat) :
  hand_sum hand 0 0%nat = Ok (raw, aces) ->
  exists (v : Z) (j0 : nat),
    hand_value hand = Ok v /\ (j0 <= aces)%nat /\
    v = raw - 10 * Z.of_nat j0 /\
    forall j : nat, (j <= aces)%nat -> raw - 10 * Z.of_nat j <= 21 ->
      raw - 10 * Z.of_nat j <= v /\ v <= 21.
Proof.
  intros Hs. unfold hand_value. rewrite Hs. simpl_bind.
  destruct (soften_spec raw aces) as (H1 & H2 & H3 & H4).
  exists (soften raw aces).1, (aces - (soften raw aces).2)%nat.
  split; [reflexivity|]. split; [lia|]. split; [exact H2|].
  intros j Hj Hle.
  destruct (decide ((soften raw aces).2 < aces)%nat) as [Hlt|Hge].
  - specialize (H4 Hlt).
    destruct (decide (0 < (soften raw aces).2)%nat) as [Hpos|Hz].
    + specialize (H3 Hpos). lia.
    + lia.
  - assert (Heq : (soften raw aces).2 = aces) by lia.
    rewrite Heq in H2. replace (aces - aces)%nat with 0%nat in H2 by lia.
    destruct (decide (0 < aces)%nat) as [Hpos|Hz].
    + rewrite Heq in H3. specialize (H3 Hpos). lia.
    + lia.
Qed.

Lemma hand_value_best_witness :
  exists v j0,
    hand_value [mkCard "A" "spades"; mkCard "A" "hearts"; mkCard "9" "clubs"]
    = Ok v /\ v = 31 - 10 * Z.of_nat j0.
Proof.
  destruct (hand_value_best
              [mkCard "A" "spades"; mkCard "A" "hearts"; mkCard "9" "clubs"]
              31 2 eq_refl) as (v & j0 & Hv & _ & Heq & _).
  exists v, j0. split; [exact Hv|exact Heq].
Defined.

(** ** The value after one more card *)

Lemma soften_le value aces : fst (soften value aces) <= value.
Proof. destruct (soften_spec value aces) as (_ & H & _). lia. Qed.

Lemma soften_shift value aces n :
  0 <= n -> fst (soften (value + n) aces) <= fst (soften value aces) + n.
Proof.
  intros Hn. revert value. induction aces as [|k IH]; intros value;
    cbn [soften].
  - cbn. lia.
  - destruct (21 <? value + n) eqn:E1, (21 <? value) eqn:E2; cbn [fst].
    + replace (value + n - 10) with (value - 10 + n) by lia. apply IH.
    + pose proof (soften_le (value + n - 10) k). lia.
    + lia.
    + lia.
Qed.

Lemma soften_ace value aces :
  fst (soften (value + 11) (S aces))
  <= Z.max 21 (fst (soften value aces) + 1).
Proof.
  cbn [soften]. destruct (21 <? value + 11) eqn:E; cbn [fst]; [|lia].
  replace (value + 11 - 10) with (value + 1) by lia.
  pose proof (soften_shift value aces 1). lia.
Qed.

Lemma hand_sum_shift hand value aces :
  hand_sum hand value aces
  = '(v, a) ← hand_sum hand 0 0%nat; Ok (v + value, (a + aces)%nat).
Proof.
  revert value aces. induction hand as [|c hand IH]; intros value aces.
  - cbn. rewrite Z.add_0_l. reflexivity.
  - rewrite !hand_sum_cons.
    destruct (card_points c) as [[n k]|e]; simpl_bind; [|reflexivity].
    rewrite (IH (value + n)), (IH (0 + n)).
    destruct (hand_sum hand 0 0%nat) as [[v a]|e]; simpl_bind; [|reflexivity].
    f_equal. f_equal; lia.
Qed.

Lemma card_points_valid c :
  valid_card c ->
  (card_points c = Ok (11, 1%nat)) \/
  (exists n, card_points c = Ok (n, 0%nat) /\ 2 <= n <= 10).
Proof.
  destruct c as [n s]. unfold valid_card, numbers. cbn [number].
  rewrite !elem_of_cons, elem_of_nil.
  intros H. repeat (destruct H as [->|H]); try contradiction;
    try (left; reflexivity);
    right; eexists; (split; [reflexivity|]); split; intros [=].
Qed.

Lemma hand_value_snoc hand c v :
  valid_card c -> hand_value hand = Ok v ->
  exists v', hand_value (hand ++ [c]) = Ok v' /\ v' <= Z.max 21 (v + 10).
Proof.
  intros Hc Hv.
  assert (Hperm : hand_value (hand ++ [c]) = hand_value (c :: hand)).
  { unfold hand_value. rewrite (hand_sum_perm (hand ++ [c]) (c :: hand));
      [reflexivity|]. apply Permutation_sym, Permutation_cons_append. }
  rewrite Hperm. unfold hand_value in *. rewrite hand_sum_cons.
  destruct (hand_sum hand 0 0%nat) as [[raw k]|e] eqn:Es; [|discriminate].
  cbv beta iota delta [mbind result_bind] in Hv. injection Hv as <-.
  destruct (card_points_valid c Hc) as [->|(n & -> & Hn)]; simpl_bind;
    rewrite hand_sum_shift, Es; simpl_bind; eexists; (split; [reflexivity|]).
  - replace (k + (1 + 0))%nat with (S k) by lia.
    replace (raw + (0 + 11)) with (raw + 11) by lia.
    pose proof (soften_ace raw k). lia.
  - replace (k + (0 + 0))%nat with k by lia.
    pose proof (soften_shift raw k (0 + n)). lia.
Qed.

(** X4: on well-formed cards, the value of a hand is at least its number
    of cards, and one more card leaves it at 21 or less, or raises it by
    10 at most. *)
Theorem hand_value_bounds (hand : list Card) (c : Card) :
  Forall valid_card hand -> valid_card c ->
  exists v v',
    hand_value hand = Ok v /\ Z.of_nat (length hand) <= v /\
    hand_value (hand ++ [c]) = Ok v' /\ v' <= Z.max 21 (v + 10).
Proof.
  intros Hh Hc. destruct (hand_value_valid hand Hh) as (v & Hv & Hlen).
  destruct (hand_value_snoc hand c v Hc Hv) as (v' & Hv' & Hle).
  exists v, v'. auto.
Qed.

Lemma hand_value_bounds_witness :
  exists v v',
    hand_value [mkCard "A" "spades"; mkCard "5" "hearts"] = Ok v /\
    hand_value ([mkCard "A" "spades"; mkCard "5" "hearts"]
                ++ [mkCard "K" "clubs"]) = Ok v' /\
    v' <= Z.max 21 (v + 10).
Proof.
  destruct (hand_value_bounds [mkCard "A" "spades"; mkCard "5" "hearts"]
              (mkCard "K" "clubs")) as (v & v' & Hv & _ & Hv' & Hle).
  - apply (bool_decide_unpack _). vm_compute. reflexivity.
  - apply (bool_decide_unpack _). vm_compute. reflexivity.
  - exists v, v'. auto.
Defined.

End HandValues.

Section MoreRounds.
Import Blackjack.

Lemma game_status_cases g v :
  hand_value (player_hand g) = Ok v ->
  exists status : string,
    game_status g = Ok status /\
    (status = "continue"%string <-> v < 21) /\
    (status = "player_blackjack"%string <-> v = 21) /\
    (status = "player_bust"%string <-> 21 < v).
Proof.
  intros Hv. unfold game_status. rewrite Hv. simpl_bind.
  destruct (21 <? v) eqn:E1; [|destruct (v =? 21) eqn:E2];
    eexists; (split; [reflexivity|]);
    repeat split; intros; try reflexivity; try discriminate; lia.
Qed.

(** X5: with well-formed cards, [hit] raises only on an empty deck
    ([IndexError]); otherwise it moves the top card of the deck to the
    end of the player's hand, leaves the dealer's hand alone and returns
    the status of the new hand: [continue] below 21, [player_blackjack]
    at 21, [player_bust] above. *)
Theorem hit_moves_top_card (g : Game) :
  Forall valid_card (player_hand g ++ deck g) ->
  (deck g = [] /\ player_action g "hit" = Raise IndexError) \/
  (exists d c (status : string) v,
     deck g = d ++ [c] /\
     player_action g "hit"
     = Ok (status, mkGame d (player_hand g ++ [c]) (dealer_hand g)) /\
     hand_value (player_hand g ++ [c]) = Ok v /\
     (status = "continue"%string <-> v < 21) /\
     (status = "player_blackjack"%string <-> v = 21) /\
     (status = "player_bust"%string <-> 21 < v)).
Proof.
  intros Hvalid. destruct g as [dk p h]. cbn [deck player_hand dealer_hand] in *.
  unfold player_action. rewrite bool_decide_eq_true_2 by reflexivity.
  destruct dk as [|c d _] using rev_ind; [left; auto|].
  right. rewrite deal_card_snoc. simpl_bind. cbn [deck player_hand dealer_hand].
  assert (Hv : Forall valid_card (p ++ [c])).
  { apply Forall_app in Hvalid as [Hp Hd]. apply Forall_app in Hd as [_ Hc].
    apply Forall_app. auto. }
  destruct (hand_value_valid _ Hv) as (v & Hval & _).
  destruct (game_status_cases (mkGame d (p ++ [c]) h) v Hval)
    as (status & -> & H1 & H2 & H3).
  simpl_bind. exists d, c, status, v. auto 10.
Qed.

Lemma hit_moves_top_card_witness :
  exists status : string,
    player_action twenty_game "hit"
    = Ok (status,
          mkGame [mkCard "3" "clubs"]
            (player_hand twenty_game ++ [mkCard "8" "hearts"])
            (dealer_hand twenty_game)).
Proof.
  destruct (hit_moves_top_card twenty_game) as [[H _]|H].
  - apply (bool_decide_unpack _). vm_compute. reflexivity.
  - discriminate H.
  - destruct H as (d & c & status & v & Hd & Hact & _).
    exists status. rewrite Hact.
    change (deck twenty_game)
      with ([mkCard "3" "clubs"] ++ [mkCard "8" "hearts"]) in Hd.
    apply app_inj_tail in Hd as [<- <-]. reflexivity.
Defined.

Lemma dealer_action_fixed g' v :
  hand_value (dealer_hand g') = Ok v -> 17 <= v -> dealer_action g' = Ok g'.
Proof.
  intros Hv H17. unfold dealer_action. cbn [dealer_loop]. rewrite Hv.
  destruct (v <? 17) eqn:E; [lia|reflexivity].
Qed.

Lemma compare_values_labels p d :
  compare_values p d ∈ ["win"; "loss"; "draw"]%string.
Proof.
  unfold compare_values.
  destruct (21 <? p), ((21 <? d) || (d <? p)), (p =? d);
    rewrite !elem_of_cons; auto.
Qed.

(** X6: once [game_result] has returned, the dealer stands: a second
    [dealer_action] or [game_result] draws nothing and gives the same
    game and the same label, which is [win], [loss] or [draw]. *)
Theorem game_result_repeat (g g' : Game) (r : string) :
  game_result g = Ok (r, g') ->
  dealer_action g' = Ok g' /\ game_result g' = Ok (r, g') /\
  r ∈ ["win"; "loss"; "draw"]%string.
Proof.
  unfold game_result at 1.
  destruct (dealer_action g) as [g1|e] eqn:Ed; [|discriminate]. simpl_bind.
  destruct (hand_value (player_hand g1)) as [p|e] eqn:Ep; [|discriminate].
  simpl_bind.
  destruct (hand_value (dealer_hand g1)) as [d|e] eqn:Eh; [|discriminate].
  simpl_bind. intros [= <- <-].
  apply dealer_action_Ok, dealer_loop_Ok in Ed
    as (drawn & v & _ & _ & _ & Hv & H17 & _).
  pose proof (dealer_action_fixed g1 v Hv H17) as Hfix.
  split; [exact Hfix|]. split; [|apply compare_values_labels].
  unfold game_result. rewrite Hfix. simpl_bind. rewrite Ep. simpl_bind.
  rewrite Eh. reflexivity.
Qed.

Lemma game_result_repeat_witness :
  game_result twenty_game = Ok ("win"%string, twenty_game) /\
  dealer_action twenty_game = Ok twenty_game.
Proof.
  split; [reflexivity|].
  apply (game_result_repeat twenty_game twenty_game "win"). reflexivity.
Defined.

(** X7: when the dealer starts from 26 or less on well-formed cards and
    [dealer_action] returns, the dealer's value lies between 17 and 26. *)
Theorem dealer_final_value (g g' : Game) (v0 : Z) :
  Forall valid_card (deck g) ->
  hand_value (dealer_hand g) = Ok v0 -> v0 <= 26 ->
  dealer_action g = Ok g' ->
  exists v, hand_value (dealer_hand g') = Ok v /\ 17 <= v <= 26.
Proof.
  intros Hvalid Hv0 H26 Hd.
  apply dealer_action_Ok, dealer_loop_Ok in Hd
    as (drawn & v & Hdeck & Hhand & _ & Hv & H17 & Hpre).
  exists v. split; [exact Hv|]. split; [exact H17|].
  destruct drawn as [|c pre _] using rev_ind.
  - rewrite app_nil_r in Hhand. rewrite Hhand, Hv0 in Hv.
    injection Hv as <-. exact H26.
  - destruct (Hpre (length pre)) as (w & Hw & Hlt).
    { rewrite length_app. cbn. lia. }
    rewrite take_app_length in Hw.
    assert (Hc : valid_card c).
    { rewrite Hdeck in Hvalid. apply Forall_app in Hvalid as [_ Hr].
      rewrite rev_app_distr in Hr. cbn in Hr. apply Forall_cons in Hr as [Hc _].
      exact Hc. }
    destruct (hand_value_snoc _ c w Hc Hw) as (v' & Hv' & Hle).
    rewrite Hhand, app_assoc, Hv' in Hv. injection Hv as <-. lia.
Qed.

Lemma dealer_final_value_witness :
  exists v, hand_value [mkCard "A" "spades"; mkCard "5" "hearts";
                        mkCard "K" "clubs"; mkCard "2" "diamonds"] = Ok v
            /\ 17 <= v <= 26.
Proof.
  apply (dealer_final_value soft16_game
           (mkGame [] (player_hand soft16_game)
              [mkCard "A" "spades"; mkCard "5" "hearts";
               mkCard "K" "clubs"; mkCard "2" "diamonds"]) 16).
  - apply (bool_decide_unpack _). vm_compute. reflexivity.
  - reflexivity.
  - lia.
  - reflexivity.
Defined.

End MoreRounds.

(** * Further properties of the Q-Learning agent *)

Section UsableAce.
Import Blackjack.

Lemma ql_usable_ace_loop_valid hand value ace :
  Forall valid_card hand ->
  exists v a,
    QLearning.usable_ace_loop hand value ace = Ok (v, a) /\
    value + 2 * Z.of_nat (length hand) <= v /\
    (a = true -> ace = true \/ value + 8 + 2 * Z.of_nat (length hand) <= v).
Proof.
  intros H. revert value ace.
  induction H as [|c hand Hc _ IH]; intros value ace.
  - exists value, ace. cbn. split; [reflexivity|]. split; [lia|auto].
  - cbn [QLearning.usable_ace_loop].
    destruct (usable_ace_card c Hc) as (n & -> & Hmin & Hace).
    simpl_bind.
    destruct (IH (value + Z.min 10 n)
                 (ace || bool_decide (number c = "A"%string)))
      as (v & a & -> & Hv & Ha).
    exists v, a. split; [reflexivity|]. cbn [length].
    split; [lia|]. intros Htrue.
    destruct (Ha Htrue) as [Hor|Hge]; [|right; lia].
    apply orb_true_iff in Hor as [Hor|Hor]; [left; exact Hor|].
    right. specialize (Hace Hor). lia.
Qed.

Lemma ql_has_usable_ace_zero hand :
  Forall valid_card hand -> (2 <= length hand)%nat ->
  QLearning.has_usable_ace hand = Ok 0.
Proof.
  intros Hv Hlen. unfold QLearning.has_usable_ace.
  destruct (ql_usable_ace_loop_valid hand 0 false Hv)
    as (v & a & -> & Hge & Ha).
  simpl_bind. destruct a; [|reflexivity].
  destruct (Ha eq_refl) as [[=]|Hv8].
  cbn [andb]. destruct (v + 10 <=? 21) eqn:E; [lia|reflexivity].
Qed.

(** X8: on every hand of two well-formed cards or more,
    [has_usable_ace] of either agent returns 0, because an ace adds
    [min(10, 11)] to [value] and the test [value + 10 <= 21] then
    fails. *)
Theorem has_usable_ace_always_zero (hand : list Card) :
  Forall valid_card hand -> (2 <= length hand)%nat ->
  QLearning.has_usable_ace hand = Ok 0 /\
  MonteCarlo.has_usable_ace hand = Ok 0.
Proof.
  intros Hv Hlen. split.
  - apply ql_has_usable_ace_zero; assumption.
  - apply has_usable_ace_zero; assumption.
Qed.

Lemma has_usable_ace_always_zero_witness :
  QLearning.has_usable_ace [mkCard "A" "spades"; mkCard "5" "hearts"] = Ok 0.
Proof.
  apply (has_usable_ace_always_zero [mkCard "A" "spades"; mkCard "5" "hearts"]).
  - apply (bool_decide_unpack _). vm_compute. reflexivity.
  - cbn. lia.
Defined.

End UsableAce.

Section FullDeck.
Import Blackjack.

(** ** Rounds on a full deck *)

Lemma generate_deck_valid : Forall valid_card generate_deck.
Proof. apply (bool_decide_unpack _). vm_compute. reflexivity. Qed.

Lemma two_cards_value c1 c2 :
  valid_card c1 -> valid_card c2 ->
  exists v, hand_value [c1; c2] = Ok v /\ v <= 21.
Proof.
  intros H1 H2. unfold hand_value. rewrite hand_sum_cons.
  destruct (card_points_valid c1 H1) as [->|(n1 & -> & Hn1)];
    simpl_bind; rewrite hand_sum_cons;
    destruct (card_points_valid c2 H2) as [->|(n2 & -> & Hn2)];
    simpl_bind; cbn [hand_sum]; simpl_bind.
  - eexists. split; [reflexivity|]. vm_compute. intros [=].
  - eexists. split; [reflexivity|]. cbn [Nat.add soften].
    destruct (21 <? 0 + 11 + n2) eqn:E; cbn [fst]; lia.
  - eexists. split; [reflexivity|]. cbn [Nat.add soften].
    destruct (21 <? 0 + n1 + 11) eqn:E; cbn [fst]; lia.
  - eexists. split; [reflexivity|]. cbn [Nat.add soften fst]. lia.
Qed.

Lemma start_game_round_ok shuffled :
  Permutation generate_deck shuffled ->
  exists g v,
    start_game (new_game shuffled) = Ok g /\ round_ok g /\
    length (deck g) = 48%nat /\
    hand_value (player_hand g) = Ok v /\ v <= 21.
Proof.
  intros Hperm.
  assert (Hlen : length shuffled = 52%nat)
    by (rewrite <- (Permutation_length Hperm); reflexivity).
  assert (Hvalid : Forall valid_card shuffled)
    by (rewrite <- Hperm; apply generate_deck_valid).
  destruct (deck_last4 shuffled) as (d & c1 & c2 & c3 & c4 & ->); [lia|].
  unfold new_game. rewrite start_game_snoc4.
  rewrite length_app in Hlen. cbn [length] in Hlen.
  apply Forall_app in Hvalid as [Hd Hc].
  repeat (apply Forall_cons in Hc as [? Hc]).
  destruct (two_cards_value c1 c2) as (v & Hv & Hle); [assumption..|].
  eexists _, v. split; [reflexivity|].
  cbn [deck player_hand dealer_hand].
  split; [|split; [lia|auto]].
  unfold round_ok. cbn [deck player_hand dealer_hand length].
  split; [|lia]. apply Forall_app. split; [exact Hd|].
  repeat (apply Forall_cons; split; [assumption|]). apply Forall_nil_2.
Qed.

Lemma round_ok_deck g v :
  round_ok g -> hand_value (player_hand g) = Ok v -> v <= 21 ->
  (25 <= length (deck g))%nat /\ (length (player_hand g) <= 21)%nat.
Proof.
  intros (Hvalid & Hd & Hp & Htot) Hv Hle.
  apply Forall_app in Hvalid as [_ Hvalid].
  apply Forall_app in Hvalid as [Hvp _].
  destruct (hand_value_valid _ Hvp) as (w & Hw & Hlen).
  rewrite Hv in Hw. injection Hw as <-. lia.
Qed.

Lemma hit_round_ok g v :
  round_ok g -> hand_value (player_hand g) = Ok v -> v <= 21 ->
  exists (status : string) g' v',
    player_action g "hit" = Ok (status, g') /\ round_ok g' /\
    length (deck g) = S (length (deck g')) /\
    dealer_hand g' = dealer_hand g /\
    hand_value (player_hand g') = Ok v' /\ 0 <= v' < 33 /\
    (status = "continue"%string -> v' < 21).
Proof.
  intros Hok Hv Hle.
  destruct (round_ok_deck g v Hok Hv Hle) as [Hdeck Hplen].
  destruct Hok as (Hvalid & Hd & Hp & Htot).
  destruct g as [dk p h]. cbn [deck player_hand dealer_hand] in *.
  destruct dk as [|c d _] using rev_ind; [cbn in Hdeck; lia|].
  rewrite length_app in Hdeck, Htot. cbn [length] in Hdeck, Htot.
  unfold player_action. rewrite bool_decide_eq_true_2 by reflexivity.
  rewrite deal_card_snoc. simpl_bind. cbn [deck player_hand dealer_hand].
  assert (Hperm : Permutation ((d ++ [c]) ++ p ++ h) (d ++ (p ++ [c]) ++ h)).
  { rewrite <- !app_assoc. apply Permutation_app_head. cbn [app].
    apply Permutation_middle. }
  rewrite Hperm in Hvalid.
  assert (Hc : valid_card c).
  { apply Forall_app in Hvalid as [_ Hv2]. apply Forall_app in Hv2 as [Hv2 _].
    apply Forall_app in Hv2 as [_ Hv2]. apply Forall_cons in Hv2 as [Hc _].
    exact Hc. }
  destruct (hand_value_snoc p c v Hc Hv) as (v' & Hv' & Hle').
  assert (Hvp : Forall valid_card (p ++ [c])).
  { apply Forall_app in Hvalid as [_ Hv2]. apply Forall_app in Hv2 as [Hv2 _].
    exact Hv2. }
  destruct (hand_value_valid _ Hvp) as (w & Hw & Hlen).
  rewrite Hv' in Hw. injection Hw as <-.
  destruct (game_status_cases (mkGame d (p ++ [c]) h) v' Hv')
    as (status & -> & H1 & _).
  simpl_bind. exists status, (mkGame d (p ++ [c]) h), v'.
  split; [reflexivity|]. cbn [deck player_hand dealer_hand].
  split.
  { unfold round_ok. cbn [deck player_hand dealer_hand].
    rewrite length_app. cbn [length]. repeat split; try assumption; lia. }
  split; [rewrite length_app; cbn; lia|].
  split; [reflexivity|]. split; [exact Hv'|]. split; [lia|].
  apply H1.
Qed.

Lemma stay_round_ok g v :
  hand_value (player_hand g) = Ok v ->
  exists status : string,
    player_action g "stay" = Ok (status, g) /\
    (status = "continue"%string -> v < 21).
Proof.
  intros Hv. unfold player_action.
  rewrite bool_decide_eq_false_2 by discriminate. simpl_bind.
  destruct (game_status_cases g v Hv) as (status & -> & H1 & _).
  simpl_bind. exists status. split; [reflexivity|apply H1].
Qed.

Lemma game_result_after_dealer g1 g2 p :
  dealer_action g1 = Ok g2 -> hand_value (player_hand g1) = Ok p ->
  exists r, game_result g2 = Ok (r, g2) /\ r ∈ ["win"; "loss"; "draw"]%string.
Proof.
  intros Hd Hp.
  apply dealer_action_Ok, dealer_loop_Ok in Hd
    as (drawn & v & _ & _ & Hpl & Hv & H17 & _).
  unfold game_result. rewrite (dealer_action_fixed g2 v Hv H17). simpl_bind.
  rewrite Hpl, Hp. simpl_bind. rewrite Hv. simpl_bind.
  eexists. split; [reflexivity|apply compare_values_labels].
Qed.

Lemma dealer_action_round_ok g :
  round_ok g -> exists g', dealer_action g = Ok g'.
Proof.
  intros (Hvalid & Hd & Hp & Htot).
  assert (Hperm : Permutation (deck g ++ player_hand g ++ dealer_hand g)
                    (player_hand g ++ dealer_hand g ++ deck g)).
  { rewrite (Permutation_app_comm (deck g)), <- app_assoc. reflexivity. }
  rewrite Hperm in Hvalid. apply Forall_app in Hvalid as [_ Hvalid].
  destruct (dealer_loop_valid (S (length (deck g))) g Hvalid) as [g' H].
  - rewrite length_app. lia.
  - lia.
  - exists g'. unfold dealer_action. rewrite H. reflexivity.
Qed.

Lemma game_result_round_ok g :
  round_ok g ->
  exists r g', game_result g = Ok (r, g') /\
               r ∈ ["win"; "loss"; "draw"]%string.
Proof.
  intros Hok. destruct (dealer_action_round_ok g Hok) as [g' Hd].
  pose proof Hok as (Hvalid & _).
  apply Forall_app in Hvalid as [_ Hvalid].
  apply Forall_app in Hvalid as [Hvp _].
  destruct (hand_value_valid _ Hvp) as (p & Hp & _).
  pose proof Hd as Hd'.
  apply dealer_action_Ok, dealer_loop_Ok in Hd'
    as (drawn & v & _ & _ & Hpl & Hv & H17 & _).
  unfold game_result. rewrite Hd. simpl_bind. rewrite Hpl, Hp. simpl_bind.
  rewrite Hv. simpl_bind. eexists _, _.
  split; [reflexivity|apply compare_values_labels].
Qed.

End FullDeck.

Section QTraining.
Import Blackjack QLearning.

Variable R : Type.
Variable of_int : Z -> R.
Variables radd rsub rmul rmax : R -> R -> R.
Variable rltb : R -> R -> bool.

(** ** The table stays in bounds *)

Lemma same_usable_half_refl (q : list R) : same_usable_half R q q.
Proof. intros p d a _ _ _. reflexivity. Qed.

Lemma same_usable_half_trans (q1 q2 q3 : list R) :
  same_usable_half R q1 q2 -> same_usable_half R q2 q3 ->
  same_usable_half R q1 q3.
Proof.
  intros H12 H23 p d a Hp Hd Ha.
  rewrite (H23 p d a Hp Hd Ha). apply H12; assumption.
Qed.

Lemma dealer_card_value_range g :
  round_ok g -> exists d, dealer_card_value g = Ok d /\ 2 <= d <= 11.
Proof.
  intros (Hvalid & Hd & _). unfold dealer_card_value.
  apply Forall_app in Hvalid as [_ Hvalid].
  apply Forall_app in Hvalid as [_ Hvalid].
  destruct (dealer_hand g) as [|c rest]; [discriminate|].
  apply Forall_cons in Hvalid as [Hc _]. cbn [first]. simpl_bind.
  destruct c as [n s]. unfold valid_card, numbers in Hc. cbn [number] in *.
  rewrite !elem_of_cons, elem_of_nil in Hc.
  repeat (destruct Hc as [->|Hc]); try contradiction;
    vm_compute; eexists; (split; [reflexivity|]); split; intros [=].
Qed.

Lemma choose_action_safe (ag : Agent R) p d u dr :
  table_ok R ag -> 0 <= p < 33 -> 0 <= d < 12 -> 0 <= u < 2 ->
  exists a, choose_action R rltb ag p d u dr = Ok a /\
            (a = "hit"%string \/ a = "stay"%string).
Proof.
  intros Hlen Hp Hd Hu.
  assert (exists a, choose_action R rltb ag p d u dr = Ok a) as [a Ha].
  { unfold choose_action. destruct (rltb _ _); [eauto|].
    destruct (Q_get_in_range R (Q R ag) p d u 0) as (x0 & _ & ->);
      try assumption; [lia|].
    destruct (Q_get_in_range R (Q R ag) p d u 1) as (x1 & _ & ->);
      try assumption; [lia|].
    simpl_bind. eauto. }
  exists a. split; [exact Ha|]. eapply choose_action_cases. exact Ha.
Qed.

Lemma update_safe (ag : Agent R) p d u action reward p' d' u' :
  table_ok R ag ->
  0 <= p < 33 -> 0 <= d < 12 -> 0 <= u < 2 ->
  0 <= p' < 33 -> 0 <= d' < 12 -> 0 <= u' < 2 ->
  exists ag',
    update R of_int radd rsub rmul rmax ag p d u action reward p' d' u'
    = Ok ag' /\
    table_ok R ag' /\
    (u = 0 -> same_usable_half R (Q R ag) (Q R ag')).
Proof.
  intros Hlen Hp Hd Hu Hp' Hd' Hu'. unfold table_ok in *.
  set (a := if bool_decide (action = "hit"%string) then 0 else 1).
  assert (Ha : 0 <= a < 2) by (subst a; case_bool_decide; lia).
  destruct (Q_get_in_range R (Q R ag) p d u a) as (old & _ & Hold);
    try assumption.
  destruct (Q_get_in_range R (Q R ag) p' d' u' 0) as (q0 & _ & Hq0);
    try assumption; [lia|].
  destruct (Q_get_in_range R (Q R ag) p' d' u' 1) as (q1 & _ & Hq1);
    try assumption; [lia|].
  unfold update, Q_max. fold a. rewrite Hold, Hq0, Hq1. simpl_bind.
  unfold Q_set. rewrite offset_in_range by assumption. simpl_bind.
  eexists. split; [reflexivity|]. cbn [Q].
  split; [rewrite length_insert; exact Hlen|].
  intros -> p2 d2 a2 Hp2 Hd2 Ha2. unfold Q_get.
  rewrite offset_in_range by (assumption || lia). simpl_bind.
  rewrite list_lookup_insert_ne; [reflexivity|]. lia.
Qed.


Lemma train_step_safe (ag : Agent R) g dealer_card dr v :
  table_ok R ag -> round_ok g ->
  hand_value (player_hand g) = Ok v -> v <= 21 ->
  2 <= dealer_card <= 11 ->
  exists ag' g' st again,
    train_step R of_int radd rsub rmul rmax rltb ag g dealer_card dr
    = Ok (ag', g', st, again) /\
    table_ok R ag' /\ same_usable_half R (Q R ag) (Q R ag') /\
    round_ok g' /\ step_ok st /\
    (again = true ->
     exists v', hand_value (player_hand g') = Ok v' /\ v' <= 21).
Proof.
  intros Hlen Hok Hv Hle Hdc.
  pose proof Hok as (Hvalid & Hdl & Hpl & Htot).
  assert (Hvp : Forall valid_card (player_hand g)).
  { apply Forall_app in Hvalid as [_ H]. apply Forall_app in H as [H _].
    exact H. }
  destruct (hand_value_valid _ Hvp) as (w & Hw & Hge).
  rewrite Hv in Hw. injection Hw as <-.
  unfold train_step. rewrite Hv. simpl_bind.
  rewrite (ql_has_usable_ace_zero _ Hvp) by lia. simpl_bind.
  destruct (choose_action_safe ag v dealer_card 0 dr) as (a & -> & Ha);
    try assumption; try lia.
  simpl_bind.
  assert (exists (status : string) g' v',
            player_action g a = Ok (status, g') /\ round_ok g' /\
            hand_value (player_hand g') = Ok v' /\ 0 <= v' < 33 /\
            (status = "continue"%string -> v' < 21))
    as (status & g' & v' & -> & Hok' & Hv' & Hr' & Hcont).
  { destruct Ha as [-> | ->].
    - destruct (hit_round_ok g v Hok Hv Hle)
        as (status & g' & v' & H1 & H2 & _ & _ & H3 & H4 & H5).
      exists status, g', v'. auto.
    - destruct (stay_round_ok g v Hv) as (status & H1 & H2).
      exists status, g, v. repeat split; try assumption; lia. }
  simpl_bind. rewrite Hv'. simpl_bind.
  pose proof Hok' as (Hvalid' & _ & Hpl' & _).
  assert (Hvp' : Forall valid_card (player_hand g')).
  { apply Forall_app in Hvalid' as [_ H]. apply Forall_app in H as [H _].
    exact H. }
  rewrite (ql_has_usable_ace_zero _ Hvp') by lia. simpl_bind.
  set (reward := if bool_decide (status = "player_blackjack"%string) then 1
                 else if bool_decide (status = "player_bust"%string) then -1
                 else 0).
  assert (exists ag',
            (if bool_decide (reward ≠ 0)
             then update R of_int radd rsub rmul rmax ag v dealer_card 0 a
                    reward v' dealer_card 0
             else Ok ag) = Ok ag' /\
            table_ok R ag' /\ same_usable_half R (Q R ag) (Q R ag'))
    as (ag' & -> & Hlen' & Hsame).
  { case_bool_decide.
    - destruct (update_safe ag v dealer_card 0 a reward v' dealer_card 0)
        as (ag' & H1 & H2 & H3); try assumption; try lia.
      exists ag'. auto.
    - exists ag. auto using same_usable_half_refl. }
  simpl_bind. eexists ag', g', _, _. split; [reflexivity|].
  split; [exact Hlen'|]. split; [exact Hsame|]. split; [exact Hok'|].
  split.
  { unfold step_ok.
    cbn [player_sum usable_ace new_player_sum new_usable_ace].
    repeat split; lia. }
  intros Hagain. apply andb_true_iff in Hagain as [_ Hc].
  apply bool_decide_eq_true in Hc. exists v'. split; [exact Hv'|].
  specialize (Hcont Hc). lia.
Qed.

Lemma train_loop_safe fuel (ag : Agent R) g dealer_card draws i v :
  (length (deck g) < fuel)%nat ->
  table_ok R ag -> round_ok g ->
  hand_value (player_hand g) = Ok v -> v <= 21 ->
  2 <= dealer_card <= 11 ->
  exists ag' g' st,
    train_loop R of_int radd rsub rmul rmax rltb fuel ag g dealer_card
      draws i = Some (Ok (ag', g', st)) /\
    table_ok R ag' /\ same_usable_half R (Q R ag) (Q R ag') /\
    round_ok g' /\ step_ok st.
Proof.
  revert ag g i v.
  induction fuel as [|fuel IH]; intros ag g i v Hfuel Hlen Hok Hv Hle Hdc;
    [lia|].
  cbn [train_loop].
  destruct (train_step_safe ag g dealer_card (draws i) v)
    as (ag1 & g1 & st & again & Hstep & Hlen1 & Hsame1 & Hok1 & Hst & Hag);
    try assumption.
  rewrite Hstep. destruct again.
  - destruct (Hag eq_refl) as (v1 & Hv1 & Hle1).
    apply train_step_again in Hstep.
    destruct (IH ag1 g1 (S i) v1) as (ag' & g' & st' & -> & H1 & H2 & H3 & H4);
      try assumption; [lia|].
    exists ag', g', st'. split; [reflexivity|].
    eauto using same_usable_half_trans.
  - exists ag1, g1, st. auto.
Qed.

Lemma train_episode_safe one_percent shuffled draws (ag : Agent R) ep :
  Permutation generate_deck shuffled -> one_percent ≠ 0 ->
  table_ok R ag ->
  exists ag',
    train_episode R of_int radd rsub rmul rmax rltb one_percent shuffled
      draws ag ep = Ok ag' /\
    table_ok R ag' /\ same_usable_half R (Q R ag) (Q R ag').
Proof.
  intros Hperm Hone Hlen. unfold train_episode.
  destruct (start_game_round_ok shuffled Hperm)
    as (g & v & -> & Hok & Hdeck & Hv & Hle).
  simpl_bind. unfold py_mod.
  rewrite (proj2 (Z.eqb_neq one_percent 0) Hone). simpl_bind.
  destruct (dealer_card_value_range g Hok) as (dc & -> & Hdc). simpl_bind.
  destruct (train_loop_safe (S (length (deck g))) ag g dc draws 0%nat v)
    as (ag1 & g1 & st & -> & Hlen1 & Hsame1 & Hok1 & Hst);
    try assumption; [lia|].
  cbn [from_option id]. simpl_bind.
  destruct (game_result_round_ok g1 Hok1) as (r & g2 & -> & _). simpl_bind.
  destruct Hst as (Hp & Hu & Hp' & Hu').
  destruct (update_safe ag1 (player_sum st) dc (usable_ace st) (action st)
              (if bool_decide (r = "win"%string) then 1
               else if bool_decide (r = "loss"%string) then -1 else 0)
              (new_player_sum st) dc (new_usable_ace st))
    as (ag' & -> & Hlen' & Hsame'); try assumption; try lia.
  exists ag'. split; [reflexivity|]. split; [exact Hlen'|].
  eauto using same_usable_half_trans.
Qed.

Lemma py_round_percent_large episodes :
  51 <= episodes -> py_round_percent episodes ≠ 0.
Proof.
  intros H. unfold py_round_percent.
  pose proof (Z.div_mod episodes 100 ltac:(lia)).
  pose proof (Z.mod_pos_bound episodes 100 ltac:(lia)).
  destruct (episodes mod 100 <? 50) eqn:E1;
    [|destruct (50 <? episodes mod 100) eqn:E2;
      [|destruct (Z.even (episodes / 100))]]; lia.
Qed.

Lemma train_invariant shuffles draws (ag : Agent R) episodes :
  (forall ep, Permutation generate_deck (shuffles ep)) ->
  51 <= episodes -> table_ok R ag ->
  exists ag',
    train R of_int radd rsub rmul rmax rltb shuffles draws ag episodes
    = Ok ag' /\
    table_ok R ag' /\ same_usable_half R (Q R ag) (Q R ag').
Proof.
  intros Hperm Hep Hlen. unfold train.
  pose proof (py_round_percent_large episodes Hep) as Hone.
  generalize (py_range episodes). intros eps. revert ag Hlen.
  induction eps as [|ep eps IH]; intros ag Hlen.
  - exists ag. cbn. auto using same_usable_half_refl.
  - rewrite for_each_cons.
    destruct (train_episode_safe (py_round_percent episodes) (shuffles ep)
                (draws ep) ag ep (Hperm ep) Hone Hlen)
      as (ag1 & -> & Hlen1 & Hsame1).
    simpl_bind. destruct (IH ag1 Hlen1) as (ag' & -> & Hlen' & Hsame').
    exists ag'. split; [reflexivity|].
    eauto using same_usable_half_trans.
Qed.



(** X10: training never writes an entry [Q[p, d, 1, a]].  As
    [has_usable_ace] is 0 on every hand the loop meets, all updates go
    to the entries with the usable-ace index 0, and the other half of
    the table is after [train] what it was before. *)
Theorem ql_train_usable_half_untouched shuffles draws (ag ag' : Agent R)
    (episodes : Z) (p d a : Z) :
  (forall ep, Permutation generate_deck (shuffles ep)) ->
  51 <= episodes -> length (Q R ag) = 1584%nat ->
  train R of_int radd rsub rmul rmax rltb shuffles draws ag episodes
  = Ok ag' ->
  0 <= p < 33 -> 0 <= d < 12 -> 0 <= a < 2 ->
  Q_get R (Q R ag') p d 1 a = Q_get R (Q R ag) p d 1 a.
Proof.
  intros Hperm Hep Hlen Hrun Hp Hd Ha.
  destruct (train_invariant shuffles draws ag episodes Hperm Hep Hlen)
    as (ag1 & Hrun1 & _ & Hsame).
  rewrite Hrun in Hrun1. injection Hrun1 as <-.
  apply Hsame; assumption.
Qed.

(** ** [play] *)

Lemma play_step_safe (ag : Agent R) g dr v :
  table_ok R ag -> round_ok g ->
  hand_value (player_hand g) = Ok v -> v <= 21 ->
  exists g' (status : string) again,
    play_step R rltb ag g dr = Ok (g', status, again) /\
    round_ok g' /\
    (again = true ->
     length (deck g) = S (length (deck g')) /\
     exists v', hand_value (player_hand g') = Ok v' /\ v' <= 21).
Proof.
  intros Hlen Hok Hv Hle.
  pose proof Hok as (Hvalid & Hdl & Hpl & Htot).
  assert (Hvp : Forall valid_card (player_hand g)).
  { apply Forall_app in Hvalid as [_ H]. apply Forall_app in H as [H _].
    exact H. }
  destruct (hand_value_valid _ Hvp) as (w & Hw & Hge).
  rewrite Hv in Hw. injection Hw as <-.
  unfold play_step. rewrite Hv. simpl_bind.
  rewrite (ql_has_usable_ace_zero _ Hvp) by lia. simpl_bind.
  destruct (dealer_card_value_range g Hok) as (dc & -> & Hdc). simpl_bind.
  destruct (choose_action_safe ag v dc 0 dr) as (a & -> & Ha);
    try assumption; try lia.
  simpl_bind. destruct Ha as [-> | ->].
  - destruct (hit_round_ok g v Hok Hv Hle)
      as (status & g' & v' & -> & H2 & Hdk & _ & H3 & H4 & H5).
    simpl_bind. eexists g', status, _. split; [reflexivity|].
    split; [exact H2|]. intros Hagain.
    apply andb_true_iff in Hagain as [_ Hc].
    apply bool_decide_eq_true in Hc. split; [exact Hdk|].
    exists v'. split; [exact H3|]. specialize (H5 Hc). lia.
  - destruct (stay_round_ok g v Hv) as (status & -> & _).
    simpl_bind. eexists g, status, _. split; [reflexivity|].
    split; [exact Hok|]. rewrite bool_decide_eq_true_2 by reflexivity.
    cbn [negb andb]. discriminate.
Qed.

Lemma play_loop_safe fuel (ag : Agent R) g draws i v :
  (length (deck g) < fuel)%nat ->
  table_ok R ag -> round_ok g ->
  hand_value (player_hand g) = Ok v -> v <= 21 ->
  exists g' (status : string),
    play_loop R rltb fuel ag g draws i = Some (Ok (g', status)) /\
    round_ok g'.
Proof.
  revert g i v.
  induction fuel as [|fuel IH]; intros g i v Hfuel Hlen Hok Hv Hle; [lia|].
  cbn [play_loop].
  destruct (play_step_safe ag g (draws i) v)
    as (g1 & status & again & -> & Hok1 & Hag); try assumption.
  destruct again; [|eauto].
  destruct (Hag eq_refl) as (Hdk & v1 & Hv1 & Hle1).
  apply (IH g1 (S i) v1); try assumption. lia.
Qed.

(** X11: on a full shuffled deck and a table of the allocated shape,
    [play] returns, and what it returns is [win], [loss] or [draw]. *)
Theorem ql_play_returns_label shuffled draws (ag : Agent R) :
  Permutation generate_deck shuffled -> length (Q R ag) = 1584%nat ->
  exists r : string,
    play R rltb shuffled draws ag = Ok r /\
    r ∈ ["win"; "loss"; "draw"]%string.
Proof.
  intros Hperm Hlen. unfold play.
  destruct (start_game_round_ok shuffled Hperm)
    as (g & v & -> & Hok & Hdeck & Hv & Hle).
  simpl_bind.
  destruct (play_loop_safe (S (length (deck g))) ag g draws 0%nat v)
    as (g1 & status & -> & Hok1); try assumption; [lia|].
  cbn [from_option id]. simpl_bind.
  case_bool_decide.
  - destruct (dealer_action_round_ok g1 Hok1) as [g2 Hd]. rewrite Hd.
    simpl_bind.
    pose proof Hok1 as (Hvalid & _).
    apply Forall_app in Hvalid as [_ Hvalid].
    apply Forall_app in Hvalid as [Hvp _].
    destruct (hand_value_valid _ Hvp) as (p & Hp & _).
    destruct (game_result_after_dealer g1 g2 p Hd Hp) as (r & -> & Hr).
    simpl_bind. eauto.
  - simpl_bind. destruct (game_result_round_ok g1 Hok1) as (r & g2 & -> & Hr).
    simpl_bind. eauto.
Qed.

End QTraining.


Lemma ql_train_usable_half_untouched_witness :
  exists ag',
    QLearning.train Z (fun z => z) Z.add Z.sub Z.mul Z.max Z.ltb
      (fun _ => Blackjack.generate_deck)
      (fun _ _ => QLearning.mkDraw Z 1 true)
      (QLearning.init Z 0 1 1 0) 51 = Ok ag' /\
    QLearning.Q_get Z (QLearning.Q Z ag') 20 10 1 0 = Ok 0.
Proof.
  destruct (train_invariant Z (fun z => z) Z.add Z.sub Z.mul Z.max Z.ltb
              (fun _ => Blackjack.generate_deck)
              (fun _ _ => QLearning.mkDraw Z 1 true)
              (QLearning.init Z 0 1 1 0) 51)
    as (ag' & Hrun & _); [intros ep; reflexivity | lia | reflexivity |].
  exists ag'. split; [exact Hrun|].
  rewrite (ql_train_usable_half_untouched Z (fun z => z) Z.add Z.sub Z.mul
             Z.max Z.ltb (fun _ => Blackjack.generate_deck)
             (fun _ _ => QLearning.mkDraw Z 1 true)
             (QLearning.init Z 0 1 1 0) ag' 51 20 10 0);
    [reflexivity | intros ep; reflexivity | lia | reflexivity
     | exact Hrun | lia | lia | lia].
Defined.

Lemma ql_play_returns_label_witness :
  exists r : string,
    QLearning.play Z Z.ltb Blackjack.generate_deck
      (fun _ => QLearning.mkDraw Z 1 true) (QLearning.init Z 0 1 1 0) = Ok r.
Proof.
  destruct (ql_play_returns_label Z Z.ltb Blackjack.generate_deck
              (fun _ => QLearning.mkDraw Z 1 true) (QLearning.init Z 0 1 1 0))
    as (r & Hr & _); [reflexivity | reflexivity |].
  exists r. exact Hr.
Defined.

(** * Further properties of the Monte Carlo agent *)

Section MCMore.
Import Blackjack MonteCarlo.

Variable R : Type.
Variable true_div : Z -> Z -> R.
Variable rltb : R -> R -> bool.

(** ** What an episode's updates leave alone *)

Lemma max_from_in (best : string * R) (rest : list (string * R)) :
  max_from R rltb best rest ∈ (best :: rest).*1.
Proof.
  revert best. induction rest as [|x rest IH]; intros best; cbn [max_from].
  - cbn. left.
  - destruct (rltb best.2 x.2).
    + cbn [fmap list_fmap]. right. apply IH.
    + specialize (IH best). cbn [fmap list_fmap] in *.
      apply elem_of_cons in IH as [->|IH]; [left|right; right; exact IH].
Qed.

Lemma visit_total (G : Z) (ag : Agent R) (s : State) (a : string) :
  exists best,
    best ∈ (dict_set R (default [] (Q R ag !! s)) a
              (mean R true_div
                 (default [] (returns R ag !! (s, a)) ++ [G]))).*1 /\
    visit R true_div rltb G ag (s, a)
    = Ok (mkAgent R
            (<[s := dict_set R (default [] (Q R ag !! s)) a
                      (mean R true_div
                         (default [] (returns R ag !! (s, a)) ++ [G]))]>
               (Q R ag))
            (<[(s, a) := default [] (returns R ag !! (s, a)) ++ [G]]>
               (returns R ag))
            (<[s := Some best]> (policy R ag))).
Proof.
  unfold visit.
  destruct (dict_set R (default [] (Q R ag !! s)) a
              (mean R true_div (default [] (returns R ag !! (s, a)) ++ [G])))
    as [|x rest] eqn:E.
  - exfalso. exact (dict_set_not_nil R _ _ _ E).
  - cbn [py_max_key]. simpl_bind. eexists. split; [|reflexivity].
    apply max_from_in.
Qed.

Lemma update_episode_total (G : Z) (episode : list (State * string))
    (ag : Agent R) :
  exists ag',
    for_each (visit R true_div rltb G) episode ag = Ok ag' /\
    (forall s, s ∉ episode.*1 ->
       Q R ag' !! s = Q R ag !! s /\ policy R ag' !! s = policy R ag !! s) /\
    (forall k, k ∉ episode -> returns R ag' !! k = returns R ag !! k).
Proof.
  revert ag. induction episode as [|[s a] xs IH]; intros ag.
  - exists ag. cbn. auto.
  - rewrite for_each_cons. destruct (visit_total G ag s a) as (best & _ & ->).
    simpl_bind.
    match goal with
    | |- context [for_each _ xs ?a] =>
        destruct (IH a) as (ag' & -> & HQ & Hr)
    end.
    exists ag'. split; [reflexivity|]. cbn [Q returns policy] in HQ, Hr.
    split.
    + intros s' Hs'. cbn [fmap list_fmap fst] in Hs'.
      apply not_elem_of_cons in Hs' as [Hne Hs'].
      destruct (HQ s' Hs') as [-> ->].
      rewrite !lookup_insert_ne by congruence. auto.
    + intros k Hk. apply not_elem_of_cons in Hk as [Hne Hk].
      rewrite (Hr k Hk). rewrite lookup_insert_ne by congruence. reflexivity.
Qed.

(** X12: the updates [train] makes after an episode never raise, and
    they change nothing for a state the episode does not visit: its
    entry of [Q] and its policy stay as they were, and so does the
    return history of every pair outside the episode. *)
Theorem update_episode_frame (ag : Agent R) (episode : list (State * string))
    (res : string) :
  exists ag',
    update_episode R true_div rltb ag episode res = Ok ag' /\
    (forall s, s ∉ episode.*1 ->
       Q R ag' !! s = Q R ag !! s /\ policy R ag' !! s = policy R ag !! s) /\
    (forall k, k ∉ episode -> returns R ag' !! k = returns R ag !! k).
Proof. apply update_episode_total. Qed.

(** ** The shape of an episode *)

Lemma policy_read_spec (ag : Agent R) (s : State) :
  (policy_read R ag s).1 = mjoin (policy R ag !! s) /\
  Q R (policy_read R ag s).2 = Q R ag /\
  returns R (policy_read R ag s).2 = returns R ag /\
  forall s', mjoin (policy R (policy_read R ag s).2 !! s')
             = mjoin (policy R ag !! s').
Proof.
  unfold policy_read. destruct (policy R ag !! s) as [p|] eqn:E;
    cbn [fst snd Q returns policy]; repeat split; try reflexivity.
  intros s'. destruct (decide (s = s')) as [<-|Hne].
  - rewrite lookup_insert_eq, E. reflexivity.
  - rewrite lookup_insert_ne by assumption. reflexivity.
Qed.

Lemma episode_loop_shape fuel (ag : Agent R) g action episode ag1 g1 ep1 :
  episode_loop R fuel ag g action episode = Some (Ok (ag1, g1, ep1)) ->
  (exists pre s, episode = pre ++ [(s, action)] /\
                 Forall (fun sa => sa.2 = "hit"%string) pre) ->
  (exists tail, ep1 = episode ++ tail) /\
  (exists pre last, ep1 = pre ++ [last] /\
                    Forall (fun sa => sa.2 = "hit"%string) pre) /\
  Q R ag1 = Q R ag /\ returns R ag1 = returns R ag /\
  (forall s, mjoin (policy R ag1 !! s) = mjoin (policy R ag !! s)).
Proof.
  revert ag g action episode.
  induction fuel as [|fuel IH]; intros ag g action episode; [discriminate|].
  cbn [episode_loop].
  destruct (game_status g) as [status|e]; [|discriminate].
  destruct (bool_decide (status = "continue"%string)
            && bool_decide (action = "hit"%string)) eqn:Hc.
  - destruct (player_action g "hit") as [[st g']|e]; [|discriminate].
    destruct (episode_state g') as [state|e]; [|discriminate].
    destruct (policy_read_spec ag state) as (Hp & HQ & Hr & Hj).
    destruct (policy_read R ag state) as [p ag'] eqn:Er.
    cbn [fst snd] in Hp, HQ, Hr, Hj.
    intros Hloop (pre & s & Hep & Hpre).
    apply andb_true_iff in Hc as [_ Hhit].
    apply bool_decide_eq_true in Hhit. subst action.
    apply IH in Hloop as ((tail & Htail) & Hshape & HQ1 & Hr1 & Hj1).
    + split; [exists ((state, match p with Some a => a | None => "hit"%string end)
                       :: tail);
              rewrite Htail, <- app_assoc; reflexivity|].
      split; [exact Hshape|].
      split; [congruence|]. split; [congruence|].
      intros s'. rewrite Hj1. apply Hj.
    + exists episode, state. split; [reflexivity|].
      rewrite Hep. apply Forall_app. split; [exact Hpre|].
      apply Forall_cons. split; [reflexivity|apply Forall_nil_2].
  - intros [= <- <- <-] (pre & s & Hep & Hpre).
    split; [exists []; rewrite app_nil_r; reflexivity|].
    split; [eauto|]. auto.
Qed.

(** X13: an episode of [generate_episode] starts with the first state
    and the randomly chosen action, and every pair before its last one
    has the action [hit].  Generating it leaves [Q] and the return
    histories as they are and changes no policy that is read back (a
    state without policy may get the entry [None]); the result is [win],
    [loss] or [draw]. *)
Theorem generate_episode_shape (first_hit : bool) (ag ag1 : Agent R)
    (g : Game) (episode : list (State * string)) (res : string) :
  generate_episode R first_hit ag g = Ok (ag1, episode, res) ->
  (exists s0 tail,
     episode = (s0, if first_hit then "hit" else "stay")%string :: tail) /\
  (exists pre last, episode = pre ++ [last] /\
                    Forall (fun sa => sa.2 = "hit"%string) pre) /\
  Q R ag1 = Q R ag /\ returns R ag1 = returns R ag /\
  (forall s, mjoin (policy R ag1 !! s) = mjoin (policy R ag !! s)) /\
  res ∈ ["win"; "loss"; "draw"]%string.
Proof.
  unfold generate_episode.
  destruct (start_game g) as [g0|e]; [|discriminate]. simpl_bind.
  destruct (episode_state g0) as [s0|e]; [|discriminate]. simpl_bind.
  destruct (episode_loop R (S (length (deck g0))) ag g0 _ _)
    as [[[[ag' g1] ep]|e]|] eqn:Hloop; cbn [from_option id];
    [|discriminate|discriminate].
  simpl_bind.
  destruct (game_result g1) as [[r g2]|e] eqn:Hres; [|discriminate].
  simpl_bind. intros [= <- <- <-].
  apply episode_loop_shape in Hloop
    as ((tail & Htail) & Hshape & HQ & Hr & Hj).
  - split; [exists s0, tail; exact Htail|].
    split; [exact Hshape|]. split; [exact HQ|]. split; [exact Hr|].
    split; [exact Hj|].
    unfold game_result in Hres.
    destruct (dealer_action g1) as [g3|e]; [|discriminate].
    cbv beta iota delta [mbind result_bind] in Hres.
    destruct (hand_value (player_hand g3)) as [p|e]; [|discriminate].
    destruct (hand_value (dealer_hand g3)) as [d|e]; [|discriminate].
    injection Hres as <- _. apply compare_values_labels.
  - exists [], s0. split; [reflexivity|apply Forall_nil_2].
Qed.

End MCMore.

Section MCTraining.
Import Blackjack MonteCarlo.

Variable R : Type.
Variable true_div : Z -> Z -> R.
Variable rltb : R -> R -> bool.

(** ** [train] on full decks *)

Lemma round_ok_player_value g :
  round_ok g ->
  exists v, hand_value (player_hand g) = Ok v /\
            Z.of_nat (length (player_hand g)) <= v.
Proof.
  intros (Hvalid & _). apply Forall_app in Hvalid as [_ Hvalid].
  apply Forall_app in Hvalid as [Hvp _]. apply hand_value_valid, Hvp.
Qed.

Lemma start_game_twice shuffled g :
  Permutation generate_deck shuffled ->
  start_game (new_game shuffled) = Ok g ->
  exists g0, start_game g = Ok g0 /\ round_ok g0.
Proof.
  intros Hperm Hg.
  destruct (start_game_round_ok shuffled Hperm)
    as (g' & v & Hg' & Hok & Hdeck & _).
  rewrite Hg in Hg'. injection Hg' as <-.
  destruct Hok as (Hvalid & _).
  destruct g as [dk p h]. cbn [deck player_hand dealer_hand] in *.
  destruct (deck_last4 dk) as (d & c1 & c2 & c3 & c4 & ->); [lia|].
  rewrite start_game_snoc4. eexists. split; [reflexivity|].
  rewrite length_app in Hdeck. cbn [length] in Hdeck.
  apply Forall_app in Hvalid as [Hvalid _].
  apply Forall_app in Hvalid as [Hd Hc].
  repeat (apply Forall_cons in Hc as [? Hc]).
  unfold round_ok. cbn [deck player_hand dealer_hand length].
  split; [|lia]. apply Forall_app. split; [exact Hd|].
  repeat (apply Forall_cons; split; [assumption|]). apply Forall_nil_2.
Qed.

Lemma episode_state_round_ok g :
  round_ok g -> exists s, episode_state g = Ok s.
Proof.
  intros Hok. destruct (round_ok_player_value g Hok) as (v & Hv & _).
  destruct Hok as (_ & Hd & _). unfold episode_state. rewrite Hv. simpl_bind.
  destruct (dealer_hand g) as [|c rest]; [discriminate|].
  cbn [first]. simpl_bind. eauto.
Qed.

Lemma episode_loop_safe fuel (ag : Agent R) g action episode :
  (length (deck g) < fuel)%nat -> round_ok g ->
  exists ag1 g1 ep1,
    episode_loop R fuel ag g action episode = Some (Ok (ag1, g1, ep1)) /\
    round_ok g1.
Proof.
  revert ag g action episode.
  induction fuel as [|fuel IH]; intros ag g action episode Hfuel Hok; [lia|].
  cbn [episode_loop].
  destruct (round_ok_player_value g Hok) as (v & Hv & _).
  destruct (game_status_cases g v Hv) as (status & -> & Hcont & _).
  destruct (bool_decide (status = "continue"%string)
            && bool_decide (action = "hit"%string)) eqn:Hc; [|eauto].
  apply andb_true_iff in Hc as [Hc _]. apply bool_decide_eq_true in Hc.
  apply Hcont in Hc.
  destruct (hit_round_ok g v Hok Hv) as (st & g' & v' & -> & Hok' & Hdk & _);
    [lia|].
  destruct (episode_state_round_ok g' Hok') as [state ->].
  destruct (policy_read R ag state) as [p ag'].
  apply IH; [lia|exact Hok'].
Qed.

Lemma generate_episode_safe first_hit (ag : Agent R) shuffled g :
  Permutation generate_deck shuffled ->
  start_game (new_game shuffled) = Ok g ->
  exists ag1 episode res,
    generate_episode R first_hit ag g = Ok (ag1, episode, res).
Proof.
  intros Hperm Hg. unfold generate_episode.
  destruct (start_game_twice shuffled g Hperm Hg) as (g0 & -> & Hok).
  simpl_bind. destruct (episode_state_round_ok g0 Hok) as [s0 ->].
  simpl_bind.
  match goal with
  | |- context [episode_loop R ?f ?a ?g ?act ?ep] =>
      destruct (episode_loop_safe f a g act ep) as (ag1 & g1 & ep1 & -> & Hok1);
        [lia|exact Hok|]
  end.
  cbn [from_option id]. simpl_bind.
  destruct (game_result_round_ok g1 Hok1) as (r & g2 & -> & _).
  simpl_bind. eauto.
Qed.

Lemma mc_train_episode_safe one_percent shuffled first_hit (ag : Agent R) ep :
  Permutation generate_deck shuffled -> one_percent ≠ 0 ->
  exists ag',
    train_episode R true_div rltb one_percent shuffled first_hit ag ep
    = Ok ag'.
Proof.
  intros Hperm Hone. unfold train_episode.
  destruct (start_game_round_ok shuffled Hperm) as (g & v & Hg & _).
  rewrite Hg. simpl_bind. unfold py_mod.
  rewrite (proj2 (Z.eqb_neq one_percent 0) Hone). simpl_bind.
  destruct (generate_episode_safe first_hit ag shuffled g Hperm Hg)
    as (ag1 & episode & res & ->).
  simpl_bind.
  destruct (update_episode_total R true_div rltb (terminal_signal res)
              episode ag1) as (ag' & Hrun & _).
  exists ag'. exact Hrun.
Qed.

Lemma mc_train_total shuffles first_hits (ag : Agent R) (episodes : Z) :
  (forall ep, Permutation generate_deck (shuffles ep)) ->
  51 <= episodes ->
  exists ag', train R true_div rltb shuffles first_hits ag episodes = Ok ag'.
Proof.
  intros Hperm Hep. unfold train.
  pose proof (py_round_percent_large episodes Hep) as Hone.
  generalize (py_range episodes). intros eps. revert ag.
  induction eps as [|ep eps IH]; intros ag.
  - exists ag. reflexivity.
  - rewrite for_each_cons.
    destruct (mc_train_episode_safe (py_round_percent episodes) (shuffles ep)
                (first_hits ep) ag ep (Hperm ep) Hone) as (ag1 & ->).
    simpl_bind. apply IH.
Qed.


End MCTraining.


Lemma generate_episode_shape_witness :
  exists ag1 episode res pre last,
    MonteCarlo.generate_episode Z true (MonteCarlo.init Z)
      (Blackjack.mkGame (take 48 Blackjack.generate_deck)
         [Blackjack.mkCard "A" "spades"; Blackjack.mkCard "A" "clubs"]
         [Blackjack.mkCard "A" "diamonds"; Blackjack.mkCard "A" "hearts"])
    = Ok (ag1, episode, res) /\
    episode = pre ++ [last] /\
    Forall (fun sa => sa.2 = "hit"%string) pre.
Proof.
  destruct (generate_episode_safe Z true (MonteCarlo.init Z)
              Blackjack.generate_deck
              (Blackjack.mkGame (take 48 Blackjack.generate_deck)
                 [Blackjack.mkCard "A" "spades"; Blackjack.mkCard "A" "clubs"]
                 [Blackjack.mkCard "A" "diamonds";
                  Blackjack.mkCard "A" "hearts"]))
    as (ag1 & episode & res & Hgen); [reflexivity | reflexivity |].
  exists ag1, episode, res.
  destruct (generate_episode_shape Z true (MonteCarlo.init Z) ag1 _ episode
              res Hgen) as (_ & (pre & last & Hep & Hpre) & _).
  exists pre, last. auto.
Defined.

Section MCPlay.
Import Blackjack MonteCarlo.

Variable R : Type.
Variable rzero : R.
Variable rltb : R -> R -> bool.

(** ** [play] never finds its keys *)

Lemma tuple_eqb_state_four (s : State) (a b c d : pyval) :
  tuple_eqb (state_tuple s) [a; b; c; d] = false.
Proof.
  destruct s as [[p n] h]. cbn [state_tuple tuple_eqb].
  rewrite andb_false_r. rewrite andb_false_r. apply andb_false_r.
Qed.

Lemma Q_get_default_four (ag : Agent R) (a b c d : pyval) :
  Q_get_default R rzero ag [a; b; c; d] = inl rzero.
Proof.
  unfold Q_get_default.
  destruct (list_find _ _) as [[i [s values]]|] eqn:E; [|reflexivity].
  apply list_find_Some in E as (_ & Hp & _). cbn [fst] in Hp.
  rewrite tuple_eqb_state_four in Hp. destruct Hp.
Qed.

Lemma play_action_stay (ag : Agent R) p d u :
  rltb rzero rzero = false ->
  play_action R rzero rltb ag p d u = Some "stay"%string.
Proof.
  intros Hirr. unfold play_action. rewrite !Q_get_default_four.
  cbn [py_gt]. rewrite Hirr. reflexivity.
Qed.

Lemma play_as_staying shuffled (ag : Agent R) :
  rltb rzero rzero = false ->
  play R rzero rltb shuffled ag = of_result (play_staying shuffled).
Proof.
  intros Hirr. unfold play, play_staying.
  destruct (start_game (new_game shuffled)) as [g|e]; [|reflexivity].
  simpl_bind. cbn [play_loop]. unfold play_step.
  destruct (play_state g) as [[[p d] u]|e]; [|reflexivity]. simpl_bind.
  rewrite (play_action_stay ag p d u Hirr).
  destruct (player_action g "stay") as [[status g1]|e]; [|reflexivity].
  simpl_bind. rewrite bool_decide_eq_true_2 by reflexivity.
  reflexivity.
Qed.

(** X15: [play] of the Monte Carlo agent never hits and never uses what
    was learned.  Its two look-ups use keys of four integers, no key of
    [Q] is a tuple of four, so both values are the default 0.0 and the
    action is [stay]: whatever the agent, the game is the one in which
    the player stays on the two cards dealt. *)
Theorem mc_play_always_stays (shuffled : list Card) (ag : Agent R) :
  rltb rzero rzero = false ->
  (forall p d u, play_action R rzero rltb ag p d u = Some "stay"%string) /\
  play R rzero rltb shuffled ag = of_result (play_staying shuffled).
Proof.
  intros Hirr. split.
  - intros p d u. apply play_action_stay, Hirr.
  - apply play_as_staying, Hirr.
Qed.

Lemma play_state_round_ok g :
  round_ok g -> exists s, play_state g = Ok s.
Proof.
  intros Hok. destruct (round_ok_player_value g Hok) as (v & Hv & _).
  pose proof Hok as (Hvalid & Hd & Hp & _).
  apply Forall_app in Hvalid as [_ Hvalid].
  apply Forall_app in Hvalid as [Hvp Hvd].
  unfold play_state. rewrite Hv. simpl_bind.
  rewrite (has_usable_ace_zero _ Hvp) by lia. simpl_bind.
  destruct (dealer_hand g) as [|c rest]; [discriminate|].
  apply Forall_cons in Hvd as [Hc _]. cbn [first]. simpl_bind.
  destruct c as [n s]. unfold valid_card, numbers in Hc. cbn [number] in *.
  rewrite !elem_of_cons, elem_of_nil in Hc.
  repeat (destruct Hc as [->|Hc]); try contradiction;
    vm_compute; eexists; reflexivity.
Qed.

(** X16: on a full shuffled deck, [play] of the Monte Carlo agent
    returns, and what it returns is [win], [loss] or [draw]. *)
Theorem mc_play_returns_label (shuffled : list Card) (ag : Agent R) :
  Permutation generate_deck shuffled -> rltb rzero rzero = false ->
  exists r : string,
    play R rzero rltb shuffled ag = Done r /\
    r ∈ ["win"; "loss"; "draw"]%string.
Proof.
  intros Hperm Hirr. rewrite (play_as_staying shuffled ag Hirr).
  unfold play_staying.
  destruct (start_game_round_ok shuffled Hperm)
    as (g & v & -> & Hok & _ & Hv & _).
  simpl_bind. destruct (play_state_round_ok g Hok) as [s ->]. simpl_bind.
  destruct (stay_round_ok g v Hv) as (status & -> & _). simpl_bind.
  unfold play_finish. case_bool_decide.
  - destruct (dealer_action_round_ok g Hok) as [g2 Hd]. rewrite Hd.
    simpl_bind.
    destruct (game_result_after_dealer g g2 v Hd Hv) as (r & -> & Hr).
    simpl_bind. cbn [of_result]. eauto.
  - simpl_bind. destruct (game_result_round_ok g Hok) as (r & g2 & -> & Hr).
    simpl_bind. cbn [of_result]. eauto.
Qed.

End MCPlay.

Lemma mc_play_always_stays_witness :
  MonteCarlo.play Z 0 Z.ltb Blackjack.generate_deck (MonteCarlo.init Z)
  = MonteCarlo.of_result (MonteCarlo.play_staying Blackjack.generate_deck).
Proof.
  apply (mc_play_always_stays Z 0 Z.ltb Blackjack.generate_deck
           (MonteCarlo.init Z)).
  reflexivity.
Defined.

Lemma mc_play_returns_label_witness :
  exists r : string,
    MonteCarlo.play Z 0 Z.ltb Blackjack.generate_deck (MonteCarlo.init Z)
    = MonteCarlo.Done r.
Proof.
  destruct (mc_play_returns_label Z 0 Z.ltb Blackjack.generate_deck
              (MonteCarlo.init Z)) as (r & Hr & _);
    [reflexivity | reflexivity |].
  exists r. exact Hr.
Defined.

(** * Edge cases *)

Section Edges.
Import Blackjack.

Variable R : Type.
Variable of_int : Z -> R.
Variables radd rsub rmul rmax : R -> R -> R.
Variable true_div : Z -> Z -> R.
Variable rltb : R -> R -> bool.

(** X17: on a state within the table, [choose_action] never raises and
    returns [hit] or [stay]; when it does not explore and the two values
    of the state are equal, as on a fresh table, it returns [stay]. *)
Theorem choose_action_total (ag : QLearning.Agent R) (p d u : Z)
    (dr : QLearning.Draw R) :
  length (QLearning.Q R ag) = 1584%nat ->
  0 <= p < 33 -> 0 <= d < 12 -> 0 <= u < 2 ->
  exists a,
    QLearning.choose_action R rltb ag p d u dr = Ok a /\
    (a = "hit"%string \/ a = "stay"%string) /\
    (rltb (QLearning.uniform R dr) (QLearning.epsilon R ag) = false ->
     forall x,
       QLearning.Q_get R (QLearning.Q R ag) p d u 0 = Ok x ->
       QLearning.Q_get R (QLearning.Q R ag) p d u 1 = Ok x ->
       rltb x x = false -> a = "stay"%string).
Proof.
  intros Hlen Hp Hd Hu.
  destruct (choose_action_safe R rltb ag p d u dr Hlen Hp Hd Hu)
    as (a & Ha & Hcases).
  exists a. split; [exact Ha|]. split; [exact Hcases|].
  intros Hexp x H0 H1 Hirr. unfold QLearning.choose_action in Ha.
  rewrite Hexp, H0, H1 in Ha.
  cbv beta iota delta [mbind result_bind] in Ha. rewrite Hirr in Ha.
  congruence.
Qed.


(** ** When the dealer fails *)

Lemma dealer_loop_error fuel g e :
  Forall valid_card (dealer_hand g ++ deck g) ->
  dealer_loop fuel g = Some (Raise e) ->
  e = IndexError /\
  exists v, hand_value (dealer_hand g ++ rev (deck g)) = Ok v /\ v < 17.
Proof.
  revert g. induction fuel as [|fuel IH]; intros g Hvalid; [discriminate|].
  cbn [dealer_loop].
  pose proof Hvalid as Hv. apply Forall_app in Hv as [Hvh _].
  destruct (hand_value_valid _ Hvh) as (v & Hval & _). rewrite Hval.
  destruct (v <? 17) eqn:Hlt; [|discriminate].
  destruct (deal_card g) as [[c g1]|e'] eqn:E.
  - apply deal_card_Ok in E as (Hd & _ & Hh). intros Hloop.
    apply IH in Hloop; cbn [deck dealer_hand] in *.
    + rewrite Hd, rev_app_distr. cbn [rev app].
      rewrite Hh, <- app_assoc in Hloop. exact Hloop.
    + rewrite Hh, <- app_assoc. cbn [app].
      rewrite Hd in Hvalid.
      eapply Permutation_Forall; [|exact Hvalid].
      apply Permutation_app_head. symmetry. apply Permutation_cons_append.
  - apply deal_card_error in E as [Hd ->]. intros [= <-].
    split; [reflexivity|]. rewrite Hd. cbn [rev]. rewrite app_nil_r.
    exists v. split; [exact Hval|lia].
Qed.

(** X19: on well-formed cards [dealer_action] can fail in one way only:
    with [IndexError], after the dealer has drawn the whole deck and
    still holds less than 17. *)
Theorem dealer_action_failure (g : Game) (e : exn) :
  Forall valid_card (dealer_hand g ++ deck g) ->
  dealer_action g = Raise e ->
  e = IndexError /\
  exists v, hand_value (dealer_hand g ++ rev (deck g)) = Ok v /\ v < 17.
Proof.
  intros Hvalid. unfold dealer_action.
  destruct (dealer_loop_enough_fuel (S (length (deck g))) g) as [r Hr]; [lia|].
  rewrite Hr. intros ->. eapply dealer_loop_error; eassumption.
Qed.

End Edges.

Lemma choose_action_total_witness :
  exists a,
    QLearning.choose_action Z Z.ltb (QLearning.init Z 0 1 1 0) 20 10 0
      (QLearning.mkDraw Z 1 true) = Ok a /\ a = "stay"%string.
Proof.
  destruct (choose_action_total Z Z.ltb (QLearning.init Z 0 1 1 0) 20 10 0
              (QLearning.mkDraw Z 1 true))
    as (a & Ha & _ & Hstay); [reflexivity | lia | lia | lia |].
  exists a. split; [exact Ha|].
  apply (Hstay eq_refl 0); reflexivity.
Defined.


Lemma dealer_action_failure_witness :
  IndexError = IndexError /\
  exists v,
    Blackjack.hand_value
      ([Blackjack.mkCard "5" "hearts"; Blackjack.mkCard "6" "spades"]
       ++ rev [Blackjack.mkCard "2" "clubs"]) = Ok v /\ v < 17.
Proof.
  apply (dealer_action_failure
           (Blackjack.mkGame [Blackjack.mkCard "2" "clubs"] []
              [Blackjack.mkCard "5" "hearts"; Blackjack.mkCard "6" "spades"])
           IndexError).
  - apply (bool_decide_unpack _). vm_compute. reflexivity.
  - reflexivity.
Defined.

Section MCActions.
Import Blackjack MonteCarlo.

Variable R : Type.
Variable true_div : Z -> Z -> R.
Variable rltb : R -> R -> bool.

(** ** The actions an agent stores *)

Abbreviation move a := (a = "hit"%string \/ a = "stay"%string).

Lemma visit_actions_ok (G : Z) (ag ag' : Agent R) (s : State) (a : string) :
  actions_ok ag -> move a ->
  visit R true_div rltb G ag (s, a) = Ok ag' -> actions_ok ag'.
Proof.
  intros [Hpol HQ] Ha.
  destruct (visit_total R true_div rltb G ag s a) as (best & Hbest & ->).
  intros [= <-].
  assert (Hkeys : forall k,
            k ∈ (dict_set R (default [] (Q R ag !! s)) a
                   (mean R true_div
                      (default [] (returns R ag !! (s, a)) ++ [G]))).*1 ->
            move k).
  { intros k Hk. apply dict_set_keys in Hk as [->|Hk]; [exact Ha|].
    destruct (Q R ag !! s) as [values|] eqn:E; cbn in Hk.
    - eapply HQ; eassumption.
    - inversion Hk. }
  split; cbn [Q policy].
  - intros s' k. rewrite lookup_insert. case_decide.
    + intros [= <-]. apply Hkeys, Hbest.
    + apply Hpol.
  - intros s' values k. rewrite lookup_insert. case_decide.
    + intros [= <-]. apply Hkeys.
    + apply HQ.
Qed.

Lemma update_episode_actions_ok (G : Z) (episode : list (State * string))
    (ag ag' : Agent R) :
  actions_ok ag -> Forall (fun sa => move sa.2) episode ->
  for_each (visit R true_div rltb G) episode ag = Ok ag' -> actions_ok ag'.
Proof.
  revert ag. induction episode as [|[s a] xs IH]; intros ag Hok Hall.
  - intros [= <-]. exact Hok.
  - apply Forall_cons in Hall as [Ha Hall]. rewrite for_each_cons.
    destruct (visit R true_div rltb G ag (s, a)) as [ag1|e] eqn:E;
      [|discriminate].
    simpl_bind. apply IH; [|exact Hall].
    eapply visit_actions_ok; eassumption.
Qed.

Lemma policy_read_actions_ok (ag : Agent R) (s : State) :
  actions_ok ag ->
  actions_ok (policy_read R ag s).2 /\
  (forall a, (policy_read R ag s).1 = Some a -> move a).
Proof.
  intros [Hpol HQ]. unfold policy_read.
  destruct (policy R ag !! s) as [p|] eqn:E; cbn [fst snd].
  - split; [split; assumption|]. intros a ->. eapply Hpol, E.
  - split; [|discriminate]. split; cbn [Q policy]; [|exact HQ].
    intros s' a. rewrite lookup_insert. case_decide; [discriminate|].
    apply Hpol.
Qed.

Lemma episode_loop_actions_ok fuel (ag : Agent R) g action episode
    ag1 g1 ep1 :
  actions_ok ag -> move action ->
  Forall (fun sa => move sa.2) episode ->
  episode_loop R fuel ag g action episode = Some (Ok (ag1, g1, ep1)) ->
  actions_ok ag1 /\ Forall (fun sa => move sa.2) ep1.
Proof.
  revert ag g action episode.
  induction fuel as [|fuel IH]; intros ag g action episode Hok Ha Hall;
    [discriminate|].
  cbn [episode_loop].
  destruct (game_status g) as [status|e]; [|discriminate].
  destruct (_ && _).
  - destruct (player_action g "hit") as [[st g']|e]; [|discriminate].
    destruct (episode_state g') as [state|e]; [|discriminate].
    destruct (policy_read_actions_ok ag state Hok) as [Hok' Hp].
    destruct (policy_read R ag state) as [p ag'].
    cbn [fst snd] in Hok', Hp.
    assert (Ha' : move (match p with Some a => a | None => action end)).
    { destruct p as [a|]; [apply Hp; reflexivity|exact Ha]. }
    apply IH; try assumption.
    apply Forall_app. split; [exact Hall|].
    apply Forall_cons. split; [exact Ha'|apply Forall_nil_2].
  - intros [= <- <- <-]. auto.
Qed.

Lemma train_episode_actions_ok one_percent shuffled first_hit
    (ag ag' : Agent R) ep :
  actions_ok ag ->
  train_episode R true_div rltb one_percent shuffled first_hit ag ep = Ok ag' ->
  actions_ok ag'.
Proof.
  intros Hok. unfold train_episode.
  destruct (start_game (new_game shuffled)) as [g|e]; [|discriminate].
  simpl_bind. destruct (py_mod ep one_percent) as [m|e]; [|discriminate].
  simpl_bind. unfold generate_episode.
  destruct (start_game g) as [g0|e]; [|discriminate]. simpl_bind.
  destruct (episode_state g0) as [s0|e]; [|discriminate]. simpl_bind.
  destruct (episode_loop R (S (length (deck g0))) ag g0 _ _)
    as [[[[ag1 g1] ep1]|e]|] eqn:Hloop; cbn [from_option id];
    [|discriminate|discriminate].
  simpl_bind. destruct (game_result g1) as [[r g2]|e]; [|discriminate].
  simpl_bind.
  apply episode_loop_actions_ok in Hloop as [Hok1 Hall]; try assumption.
  - unfold update_episode. apply update_episode_actions_ok; assumption.
  - destruct first_hit; [left|right]; reflexivity.
  - apply Forall_cons. split; [|apply Forall_nil_2].
    destruct first_hit; [left|right]; reflexivity.
Qed.

(** X20: training keeps the stored actions within the two moves of the
    game: if every policy entry and every key of an inner dictionary of
    [Q] is [hit] or [stay] before [train], the same holds after it. *)
Theorem mc_train_actions_ok shuffles first_hits (ag ag' : Agent R)
    (episodes : Z) :
  actions_ok ag ->
  train R true_div rltb shuffles first_hits ag episodes = Ok ag' ->
  actions_ok ag'.
Proof.
  unfold train. generalize (py_round_percent episodes). intros one.
  generalize (py_range episodes). intros eps. revert ag.
  induction eps as [|ep eps IH]; intros ag Hok.
  - intros [= <-]. exact Hok.
  - rewrite for_each_cons.
    destruct (train_episode R true_div rltb one (shuffles ep) (first_hits ep)
                ag ep) as [ag1|e] eqn:E; [|discriminate].
    simpl_bind. apply IH. eapply train_episode_actions_ok; eassumption.
Qed.

End MCActions.

Lemma mc_train_actions_ok_witness :
  exists ag',
    MonteCarlo.train Z Z.div Z.ltb (fun _ => Blackjack.generate_deck)
      (fun _ => true) (MonteCarlo.init Z) 51 = Ok ag' /\
    MonteCarlo.actions_ok ag'.
Proof.
  destruct (mc_train_total Z Z.div Z.ltb (fun _ => Blackjack.generate_deck)
              (fun _ => true) (MonteCarlo.init Z) 51) as [ag' Hrun];
    [intros ep; reflexivity | lia |].
  exists ag'. split; [exact Hrun|].
  apply (mc_train_actions_ok Z Z.div Z.ltb (fun _ => Blackjack.generate_deck)
           (fun _ => true) (MonteCarlo.init Z) ag' 51); [|exact Hrun].
  split.
  - intros s a H. cbn [MonteCarlo.init MonteCarlo.policy] in H.
    rewrite lookup_empty in H. discriminate.
  - intros s v a H. cbn [MonteCarlo.init MonteCarlo.Q] in H.
    rewrite lookup_empty in H. discriminate.
Defined.

(** * Instances *)

Lemma deal_card_exhausted_witness :
  Blackjack.deal_card (Blackjack.mkGame [] [] []) = Raise IndexError.
Proof.
  apply (deal_card_exhausted (Blackjack.mkGame [] [] []) IndexError).
  split; reflexivity.
Defined.

Lemma start_game_deals_witness :
  Blackjack.start_game
    (Blackjack.mkGame
       [Blackjack.mkCard "9" "clubs"; Blackjack.mkCard "4" "hearts";
        Blackjack.mkCard "3" "hearts"; Blackjack.mkCard "2" "hearts";
        Blackjack.mkCard "A" "hearts"] [] [])
  = Ok (Blackjack.mkGame [Blackjack.mkCard "9" "clubs"]
          [Blackjack.mkCard "A" "hearts"; Blackjack.mkCard "2" "hearts"]
          [Blackjack.mkCard "3" "hearts"; Blackjack.mkCard "4" "hearts"]).
Proof.
  apply (start_game_deals _ _ IndexError).
  exists (Blackjack.mkCard "A" "hearts"), (Blackjack.mkCard "2" "hearts"),
    (Blackjack.mkCard "3" "hearts"), (Blackjack.mkCard "4" "hearts").
  repeat split.
Defined.

Lemma update_episode_frame_witness :
  exists ag',
    MonteCarlo.update_episode Z Z.div Z.ltb (MonteCarlo.init Z)
      [((16, "K"%string, true), "hit"%string)] "win" = Ok ag' /\
    MonteCarlo.Q Z ag' !! (20, "K"%string, false) = None.
Proof.
  destruct (update_episode_frame Z Z.div Z.ltb (MonteCarlo.init Z)
              [((16, "K"%string, true), "hit"%string)] "win")
    as (ag' & Hrun & HQ & _).
  exists ag'. split; [exact Hrun|].
  destruct (HQ (20, "K"%string, false)) as [-> _]; [|reflexivity].
  apply (bool_decide_unpack _). vm_compute. reflexivity.
Defined.
